(** * The check-in endpoint of the scavenger hunt

    A shallow embedding of the API route that answers Solana Pay
    transaction requests (the module that follows the navigation bar in
    [src/components/Navbar.tsx]): [handler] dispatches on the HTTP method, [get]
    returns the fixed descriptor, [post] validates the request and calls
    [buildTransaction], which fetches the player's state, enforces that
    locations are visited in order and assembles a partially signed
    transaction.

    The handler talks to the outside world (the RPC connection, the Anchor
    program client, web3.js); those collaborators are the fields of the
    record [Runtime].  Every call that leaves the process is recorded in a
    trace, and every call that can throw returns an [Outcome]. *)

From Stdlib Require Import ZArith String Ascii List Bool Lia.
From Stdlib.Strings Require Import Byte.
From stdpp Require Import base strings gmap list pretty.

Open Scope Z_scope.

(** ** JavaScript values *)

(** JSON-shaped values: what [req.body] carries and what [res.json] sends.
    Numbers are restricted to integers; objects keep their fields in
    insertion order, which is the order [JSON.stringify] prints them in. *)
#[warnings="-register-all"]
Inductive JsValue : Type :=
| JsUndefined
| JsNull
| JsBool (b : bool)
| JsNumber (n : Z)
| JsString (s : string)
| JsArray (items : list JsValue)
| JsObject (fields : list (string * JsValue)).

(** The [!v] test of JavaScript is [negb (truthy v)]. *)
Definition truthy (v : JsValue) : bool :=
  match v with
  | JsUndefined | JsNull => false
  | JsBool b => b
  | JsNumber n => negb (n =? 0)
  | JsString s => negb (String.eqb s "")
  | JsArray _ | JsObject _ => true
  end.

(** A value of [req.query]: [string | string[]]; a key that is not in the
    query reads as [undefined], here [None]. *)
Inductive QueryValue : Type :=
| QString (s : string)
| QArray (items : list string).

Definition query_js (q : option QueryValue) : JsValue :=
  match q with
  | None => JsUndefined
  | Some (QString s) => JsString s
  | Some (QArray items) => JsArray (map JsString items)
  end.

(** [String(v)] as a template literal applies it: an array prints its
    elements separated by commas. *)
Definition template_string (q : option QueryValue) : string :=
  match q with
  | None => "undefined"
  | Some (QString s) => s
  | Some (QArray items) => String.concat "," items
  end.

(** What a [throw] carries: [undefined], [null], or any other value, seen
    through the one property the handler reads ([message] is [JsUndefined]
    when the value has none). *)
Inductive Thrown : Type :=
| ThrownUndefined
| ThrownNull
| ThrownValue (message : JsValue).

(** The [message] of a thrown value, where reading it does not throw. *)
Definition message (e : Thrown) : JsValue :=
  match e with
  | ThrownValue m => m
  | ThrownUndefined | ThrownNull => JsUndefined
  end.

Inductive Outcome (A : Type) : Type :=
| Returned (a : A)
| Threw (e : Thrown).
Arguments Returned {A} a.
Arguments Threw {A} e.

(** [v.toString()]: a method call, so it throws on [undefined]. *)
Definition method_toString (q : option QueryValue) : Outcome string :=
  match q with
  | None =>
      Threw (ThrownValue (JsString
        "Cannot read properties of undefined (reading 'toString')"))
  | Some _ => Returned (template_string q)
  end.

(** [err.message]: reading a property of [undefined] or [null] throws. *)
Definition read_message (err : Thrown) : Outcome JsValue :=
  match err with
  | ThrownUndefined =>
      Threw (ThrownValue (JsString
        "Cannot read properties of undefined (reading 'message')"))
  | ThrownNull =>
      Threw (ThrownValue (JsString
        "Cannot read properties of null (reading 'message')"))
  | ThrownValue m => Returned m
  end.

(** The result of [new Number(s).valueOf()].  [JsNonInt] stands for [NaN],
    the infinities and the fractional values, none of which is the index of
    a location. *)
Inductive JsNum : Type :=
| JsInt (z : Z)
| JsNonInt.

(** ** Solana data *)

(** A public key, identified by its base58 text, which is what [toString]
    returns. *)
Record PublicKey : Type := { toBase58 : string }.

Definition PublicKey_toString (k : PublicKey) : string := toBase58 k.

Record Keypair : Type := {
  publicKey : PublicKey;
  secretKey : list byte
}.

Record AccountMeta : Type := {
  pubkey : PublicKey;
  isSigner : bool;
  isWritable : bool
}.

Record TransactionInstruction : Type := {
  keys : list AccountMeta;
  programId : PublicKey;
  data : list byte
}.

Record SignaturePubkeyPair : Type := {
  signature : option (list byte);
  signer : PublicKey
}.

Record Transaction : Type := {
  feePayer : option PublicKey;
  recentBlockhash : option string;
  lastValidBlockHeight : option Z;
  instructions : list TransactionInstruction;
  signatures : list SignaturePubkeyPair
}.

Record SerializeConfig : Type := {
  requireAllSignatures : option bool;
  verifySignatures : option bool
}.

(** [new Transaction({feePayer, blockhash, lastValidBlockHeight})] *)
Definition Transaction_new (payer : PublicKey) (blockhash : string)
    (height : Z) : Transaction :=
  {| feePayer := Some payer;
     recentBlockhash := Some blockhash;
     lastValidBlockHeight := Some height;
     instructions := [];
     signatures := [] |}.

(** [transaction.add(ix)] *)
Definition Transaction_add (tx : Transaction) (ix : TransactionInstruction)
    : Transaction :=
  {| feePayer := feePayer tx;
     recentBlockhash := recentBlockhash tx;
     lastValidBlockHeight := lastValidBlockHeight tx;
     instructions := instructions tx ++ [ix];
     signatures := signatures tx |}.

(** [instruction.keys.push(meta)] *)
Definition keys_push (ix : TransactionInstruction) (meta : AccountMeta)
    : TransactionInstruction :=
  {| keys := keys ix ++ [meta];
     programId := programId ix;
     data := data ix |}.

(** ** The game's data ([utils/locations], the Anchor account) *)

Record Location : Type := {
  index : Z;
  key : PublicKey
}.

Record UserState : Type := {
  user : PublicKey;
  gameId_of : PublicKey;
  lastLocation : PublicKey
}.

(** ** [Buffer.toString('base64')] *)

Module Base64.

Definition alphabet : string :=
  "ABCDEFGHIJKLMNOPQRSTUVWXYZabcdefghijklmnopqrstuvwxyz0123456789+/".

Definition digit (n : N) : ascii :=
  match String.get (N.to_nat (N.land n 63)) alphabet with
  | Some c => c
  | None => "="%char
  end.

(** Three bytes make four digits; a tail of one or two bytes is padded. *)
Fixpoint encode (bs : list byte) : string :=
  match bs with
  | [] => ""
  | [a] =>
      let n := N.shiftl (Byte.to_N a) 16 in
      String (digit (N.shiftr n 18)) (String (digit (N.shiftr n 12)) "==")
  | [a; b] =>
      let n := N.lor (N.shiftl (Byte.to_N a) 16) (N.shiftl (Byte.to_N b) 8) in
      String (digit (N.shiftr n 18)) (String (digit (N.shiftr n 12))
        (String (digit (N.shiftr n 6)) "="))
  | a :: b :: c :: rest =>
      let n := N.lor (N.lor (N.shiftl (Byte.to_N a) 16)
                            (N.shiftl (Byte.to_N b) 8)) (Byte.to_N c) in
      String (digit (N.shiftr n 18)) (String (digit (N.shiftr n 12))
        (String (digit (N.shiftr n 6)) (String (digit n) (encode rest))))
  end.

End Base64.

(** ** Effects: a trace of outside calls, and exceptions *)

Inductive Event : Type :=
| RpcFetchUserState (pda : PublicKey)
| RpcGetLatestBlockhash
| ProgramInitialize (game player : PublicKey)
| ProgramCheckIn (game locationKey player organizer : PublicKey)
| ConsoleLog (e : Thrown).

(** An [async] computation: it extends the trace and returns or throws. *)
Definition Eff (A : Type) : Type := list Event -> Outcome A * list Event.

Definition ret {A} (a : A) : Eff A := fun tr => (Returned a, tr).

Definition throw {A} (e : Thrown) : Eff A := fun tr => (Threw e, tr).

Definition bind {A B} (m : Eff A) (k : A -> Eff B) : Eff B :=
  fun tr =>
    match m tr with
    | (Returned a, tr') => k a tr'
    | (Threw e, tr') => (Threw e, tr')
    end.

(** [try { body } catch (err) { handler }] *)
Definition try_catch {A} (body : Eff A) (handler : Thrown -> Eff A) : Eff A :=
  fun tr =>
    match body tr with
    | (Returned a, tr') => (Returned a, tr')
    | (Threw e, tr') => handler e tr'
    end.

Definition lift {A} (o : Outcome A) : Eff A := fun tr => (o, tr).

(** An outside call: recorded, then answered by the collaborator. *)
Definition call {A} (ev : Event) (answer : Outcome A) : Eff A :=
  fun tr => (answer, tr ++ [ev]).

Declare Scope eff_scope.
Delimit Scope eff_scope with eff.
Notation "x <- m ;; k" := (bind m (fun x => k))
  (at level 100, m at next level, right associativity) : eff_scope.
Notation "m ;;; k" := (bind m (fun _ => k))
  (at level 100, right associativity) : eff_scope.
Open Scope eff_scope.

(** ** The collaborators *)

(** Everything the module imports or finds in the language.  A field with
    an [Outcome] can throw; what it throws is up to the collaborator. *)
Record Runtime : Type := {
  (** JavaScript and web3.js *)
  Number_valueOf : string -> JsNum;
  PublicKey_new : JsValue -> Outcome PublicKey;
  findProgramAddressSync : list PublicKey -> PublicKey -> PublicKey;
  partialSign : Transaction -> Keypair -> Outcome Transaction;
  serialize : SerializeConfig -> Transaction -> Outcome (list byte);
  (** [utils/locations] *)
  locations : list Location;
  locationAtIndex : JsNum -> option Location;
  (** [utils/programSetup] *)
  gameId : PublicKey;
  program_programId : PublicKey;
  userState_fetch : PublicKey -> Outcome UserState;
  methods_initialize : PublicKey -> PublicKey -> Outcome TransactionInstruction;
  methods_checkIn :
    PublicKey -> PublicKey -> PublicKey -> PublicKey ->
    Outcome TransactionInstruction;
  getLatestBlockhash : Outcome (string * Z);
  (** the key loaded once from [EVENT_ORGANIZER] *)
  eventOrganizer : Keypair
}.

(** ** Requests and responses *)

(** [req.body] is whatever the body parser made of the request: any value,
    [null] and [undefined] included. *)
Record NextApiRequest : Type := {
  method : option string;
  body : JsValue;
  query : gmap string QueryValue
}.

(** [res.status(status).json(json)] *)
Record Response : Type := {
  status : Z;
  json : JsValue
}.

(** [req.method == m], where [req.method] may be [undefined] *)
Definition method_is (req : NextApiRequest) (m : string) : bool :=
  match method req with
  | Some s => String.eqb s m
  | None => false
  end.

(** The property [name] of an object given by its fields; should a name be
    listed twice, the later binding counts, as for [JSON.parse]. *)
Fixpoint object_get (fields : list (string * JsValue)) (name : string)
    : option JsValue :=
  match fields with
  | [] => None
  | (k, v) :: rest =>
      match object_get rest name with
      | Some w => Some w
      | None => if String.eqb k name then Some v else None
      end
  end.

(** [req.body.account], for a body of which a property can be read: an
    object has the properties of its fields, and no other value of a body
    (a string, a number, a boolean, an array) has a property of that name. *)
Definition body_prop (req : NextApiRequest) (name : string) : JsValue :=
  match body req with
  | JsObject fields =>
      match object_get fields name with
      | Some v => v
      | None => JsUndefined
      end
  | _ => JsUndefined
  end.

(** [const {account} = req.body]: destructuring [undefined] or [null]
    throws. *)
Definition destructure_body (req : NextApiRequest) (name : string)
    : Outcome JsValue :=
  match body req with
  | JsUndefined =>
      Threw (ThrownValue (JsString
        ("Cannot destructure property '" +:+ name
         +:+ "' of 'req.body' as it is undefined.")))
  | JsNull =>
      Threw (ThrownValue (JsString
        ("Cannot destructure property '" +:+ name
         +:+ "' of 'req.body' as it is null.")))
  | _ => Returned (body_prop req name)
  end.

(** ** The handler *)

Section Handler.

Variable rt : Runtime.

Definition fetchUserState (account : PublicKey) : Eff (option UserState) :=
  let userStatePDA :=
    findProgramAddressSync rt [gameId rt; account] (program_programId rt) in
  try_catch
    (st <- call (RpcFetchUserState userStatePDA)
                (userState_fetch rt userStatePDA) ;;
     ret (Some st))
    (fun _ => ret None).

Definition verifyCorrectLocation (userState : option UserState)
    (currentLocation : Location) : bool :=
  match userState with
  | None => index currentLocation =? 1
  | Some st =>
      let lastLocation :=
        find (fun location =>
                String.eqb (PublicKey_toString (key location))
                           (PublicKey_toString (lastLocation st)))
             (locations rt) in
      match lastLocation with
      | None => false
      | Some last =>
          if negb (index currentLocation =? index last + 1)
          then false
          else true
      end
  end.

Definition createInitUserInstruction (account : PublicKey)
    : Eff TransactionInstruction :=
  initInstruction <- call (ProgramInitialize (gameId rt) account)
                          (methods_initialize rt (gameId rt) account) ;;
  ret initInstruction.

Definition createCheckInInstruction (account reference : PublicKey)
    (location : Location) : Eff TransactionInstruction :=
  checkInInstruction <-
    call (ProgramCheckIn (gameId rt) (key location) account
                         (publicKey (eventOrganizer rt)))
         (methods_checkIn rt (gameId rt) (key location) account
                          (publicKey (eventOrganizer rt))) ;;
  ret (keys_push checkInInstruction
         {| pubkey := reference; isSigner := false; isWritable := false |}).

Definition InvalidLocation : Thrown :=
  ThrownValue (JsString "Invalid location id").

Definition OutOfOrderVisit : Thrown :=
  ThrownValue (JsString "You must visit each location in order!").

Definition buildTransaction (account reference : PublicKey) (id : string)
    : Eff string :=
  userState <- fetchUserState account ;;
  match locationAtIndex rt (Number_valueOf rt id) with
  | None => throw InvalidLocation
  | Some currentLocation =>
      if negb (verifyCorrectLocation userState currentLocation)
      then throw OutOfOrderVisit
      else
        latest <- call RpcGetLatestBlockhash (getLatestBlockhash rt) ;;
        let transaction := Transaction_new account (fst latest) (snd latest) in
        transaction <-
          match userState with
          | None =>
              ix <- createInitUserInstruction account ;;
              ret (Transaction_add transaction ix)
          | Some _ => ret transaction
          end ;;
        ix <- createCheckInInstruction account reference currentLocation ;;
        let transaction := Transaction_add transaction ix in
        transaction <- lift (partialSign rt transaction (eventOrganizer rt)) ;;
        serializedTransaction <-
          lift (serialize rt {| requireAllSignatures := Some false;
                                verifySignatures := None |} transaction) ;;
        ret (Base64.encode serializedTransaction)
  end.

Definition get : Response :=
  {| status := 200;
     json := JsObject
       [("label", JsString "Scavenger Hunt!");
        ("icon",
         JsString "https://solana.com/src/img/branding/solanaLogoMark.svg")] |}.

Definition MissingParameters : Response :=
  {| status := 400;
     json := JsObject [("error", JsString "Missing required parameter(s)")] |}.

Definition ErrorCreatingTransaction : Response :=
  {| status := 500;
     json := JsObject [("error", JsString "error creating transaction")] |}.

Definition MethodNotAllowed : Response :=
  {| status := 405;
     json := JsObject [("error", JsString "Method not allowed")] |}.

Definition post (req : NextApiRequest) : Eff Response :=
  account <- lift (destructure_body req "account") ;;
  let reference := query req !! "reference" in
  let id := query req !! "id" in
  if negb (truthy account) || negb (truthy (query_js reference))
     || negb (truthy (query_js id))
  then ret MissingParameters
  else
    try_catch
      (account' <- lift (PublicKey_new rt account) ;;
       reference' <- lift (PublicKey_new rt (query_js reference)) ;;
       id' <- lift (method_toString id) ;;
       transaction <- buildTransaction account' reference' id' ;;
       ret {| status := 200;
              json := JsObject
                [("transaction", JsString transaction);
                 ("message",
                  JsString ("You've found location "
                            +:+ template_string id +:+ "!"))] |})
      (fun err =>
         call (ConsoleLog err) (Returned tt) ;;;
         message <- lift (read_message err) ;;
         if truthy message
         then ret {| status := 200;
                     json := JsObject [("transaction", JsString "");
                                       ("message", message)] |}
         else ret ErrorCreatingTransaction).

Definition handler (req : NextApiRequest) : Eff Response :=
  if method_is req "GET" then ret get
  else if method_is req "POST" then post req
  else ret MethodNotAllowed.

End Handler.

(** The same collaborators with another answer of the state account. *)
Definition with_userState_fetch (rt : Runtime)
    (fetch : PublicKey -> Outcome UserState) : Runtime :=
  {| Number_valueOf := Number_valueOf rt;
     PublicKey_new := PublicKey_new rt;
     findProgramAddressSync := findProgramAddressSync rt;
     partialSign := partialSign rt;
     serialize := serialize rt;
     locations := locations rt;
     locationAtIndex := locationAtIndex rt;
     gameId := gameId rt;
     program_programId := program_programId rt;
     userState_fetch := fetch;
     methods_initialize := methods_initialize rt;
     methods_checkIn := methods_checkIn rt;
     getLatestBlockhash := getLatestBlockhash rt;
     eventOrganizer := eventOrganizer rt |}.

(** ** A concrete game *)

(** A runtime to run the handler on: three locations, a player who has
    never checked in and one who stands at location 1. *)
Module Sample.

Definition digit_value (c : ascii) : option Z :=
  let n := Z.of_nat (nat_of_ascii c) in
  if (48 <=? n) && (n <=? 57) then Some (n - 48) else None.

Fixpoint decimal (s : string) (acc : Z) : JsNum :=
  match s with
  | EmptyString => JsInt acc
  | String c rest =>
      match digit_value c with
      | Some d => decimal rest (10 * acc + d)
      | None => JsNonInt
      end
  end.

(** [Number] on strings of decimal digits, where it reads the numeral
    (the empty string reads as 0).  Strings of any other shape are taken to
    [JsNonInt]; the examples below use none. *)
Definition Number_valueOf (s : string) : JsNum := decimal s 0.

(** Modelled from the spec: [locationAtIndex] of [utils/locations], which is
    not among the sources; "given an index, return the matching location or
    not found". *)
Definition locationAtIndex (locs : list Location) (n : JsNum)
    : option Location :=
  match n with
  | JsInt z => find (fun location => index location =? z) locs
  | JsNonInt => None
  end.

Definition base58_alphabet : string :=
  "123456789ABCDEFGHJKLMNPQRSTUVWXYZabcdefghijkmnopqrstuvwxyz".

Fixpoint occurs (c : ascii) (s : string) : bool :=
  match s with
  | EmptyString => false
  | String d rest => Ascii.eqb c d || occurs c rest
  end.

Fixpoint all_base58 (s : string) : bool :=
  match s with
  | EmptyString => true
  | String c rest => occurs c base58_alphabet && all_base58 rest
  end.

(** A 32-byte key prints as 32 to 44 base58 digits. *)
Definition PublicKey_new (v : JsValue) : Outcome PublicKey :=
  match v with
  | JsString s =>
      if all_base58 s && (32 <=? Z.of_nat (String.length s))
         && (Z.of_nat (String.length s) <=? 44)
      then Returned {| toBase58 := s |}
      else Threw (ThrownValue (JsString "Invalid public key input"))
  | _ => Threw (ThrownValue (JsString "Invalid public key input"))
  end.

Definition K1 : PublicKey :=
  {| toBase58 := "Location1oneoneoneoneoneoneoneoneoneoneone" |}.
Definition K2 : PublicKey :=
  {| toBase58 := "Location2twotwotwotwotwotwotwotwotwotwotwo" |}.
Definition K3 : PublicKey :=
  {| toBase58 := "Location3threethreethreethreethreethreeeee" |}.

Definition locations : list Location :=
  [ {| index := 1; key := K1 |};
    {| index := 2; key := K2 |};
    {| index := 3; key := K3 |} ].

Definition gameId : PublicKey :=
  {| toBase58 := "GameGameGameGameGameGameGameGameGameGame11" |}.
Definition huntProgram : PublicKey :=
  {| toBase58 := "ScavengerHuntProgram1111111111111111111111" |}.
Definition organizer : Keypair :=
  {| publicKey := {| toBase58 := "organizerorganizerorganizerorganizer1111" |};
     secretKey := [x01; x02; x03] |}.

Definition newcomer : PublicKey :=
  {| toBase58 := "newcomernewcomernewcomernewcomernewcomer" |}.
Definition veteran : PublicKey :=
  {| toBase58 := "veteranveteranveteranveteranveteran11111" |}.
Definition reference : PublicKey :=
  {| toBase58 := "referencereferencereferencereference1111" |}.

Definition findProgramAddressSync (seeds : list PublicKey)
    (program : PublicKey) : PublicKey :=
  {| toBase58 := String.concat "/" (map toBase58 (seeds ++ [program])) |}.

Definition pda_of (player : PublicKey) : PublicKey :=
  findProgramAddressSync [gameId; player] huntProgram.

Definition AccountDoesNotExist (pda : PublicKey) : Thrown :=
  ThrownValue
    (JsString ("Account does not exist or has no data " +:+ toBase58 pda)).

(** The state accounts on chain: only the veteran has one. *)
Definition userState_fetch (pda : PublicKey) : Outcome UserState :=
  if String.eqb (toBase58 pda) (toBase58 (pda_of veteran))
  then Returned {| user := veteran; gameId_of := gameId; lastLocation := K1 |}
  else Threw (AccountDoesNotExist pda).

Definition methods_initialize (game player : PublicKey)
    : Outcome TransactionInstruction :=
  Returned
    {| keys := [ {| pubkey := findProgramAddressSync [game; player] huntProgram;
                    isSigner := false; isWritable := true |};
                 {| pubkey := player; isSigner := true; isWritable := true |} ];
       programId := huntProgram;
       data := [x00] |}.

Definition methods_checkIn (game locationKey player eventOrganizer : PublicKey)
    : Outcome TransactionInstruction :=
  Returned
    {| keys := [ {| pubkey := findProgramAddressSync [game; player] huntProgram;
                    isSigner := false; isWritable := true |};
                 {| pubkey := player; isSigner := true; isWritable := true |};
                 {| pubkey := eventOrganizer;
                    isSigner := true; isWritable := false |} ];
       programId := huntProgram;
       data := [x01] |}.

(** The signer must be one of the signing keys of the instructions. *)
Definition partialSign (tx : Transaction) (signer : Keypair)
    : Outcome Transaction :=
  if existsb (fun meta =>
                isSigner meta
                && String.eqb (toBase58 (pubkey meta))
                              (toBase58 (publicKey signer)))
             (concat (map keys (instructions tx)))
  then Returned
         {| feePayer := feePayer tx;
            recentBlockhash := recentBlockhash tx;
            lastValidBlockHeight := lastValidBlockHeight tx;
            instructions := instructions tx;
            signatures := signatures tx ++
              [ {| signature := Some (secretKey signer);
                   signer := publicKey signer |} ] |}
  else Threw (ThrownValue
         (JsString ("unknown signer: " +:+ toBase58 (publicKey signer)))).

(** A stand-in for the wire format: one byte per signature and one per
    instruction.  Without [requireAllSignatures: false] a transaction that
    still lacks the fee payer's signature is refused. *)
Definition serialize (config : SerializeConfig) (tx : Transaction)
    : Outcome (list byte) :=
  match requireAllSignatures config with
  | Some false =>
      Returned (map (fun _ => x53) (signatures tx)
                ++ map (fun _ => x49) (instructions tx))
  | _ => Threw (ThrownValue (JsString "Signature verification failed"))
  end.

End Sample.

Definition runtime (fetch : PublicKey -> Outcome UserState)
    (latest : Outcome (string * Z)) : Runtime :=
  {| Number_valueOf := Sample.Number_valueOf;
     PublicKey_new := Sample.PublicKey_new;
     findProgramAddressSync := Sample.findProgramAddressSync;
     partialSign := Sample.partialSign;
     serialize := Sample.serialize;
     locations := Sample.locations;
     locationAtIndex := Sample.locationAtIndex Sample.locations;
     gameId := Sample.gameId;
     program_programId := Sample.huntProgram;
     userState_fetch := fetch;
     methods_initialize := Sample.methods_initialize;
     methods_checkIn := Sample.methods_checkIn;
     getLatestBlockhash := latest;
     eventOrganizer := Sample.organizer |}.

Definition online : Runtime :=
  runtime Sample.userState_fetch
          (Returned ("EkSnNWid2cvwEVnVx9aBqawnmiCNiDgp3gUdkDPTKN1N", 1000)).

(** The RPC node cannot be reached. *)
Definition FetchFailed : Thrown :=
  ThrownValue (JsString "failed to get recent blockhash: fetch failed").

Definition offline : Runtime :=
  runtime (fun _ => Threw FetchFailed) (Threw FetchFailed).

Definition request (verb : string) (account : option PublicKey)
    (reference id : option string) : NextApiRequest :=
  {| method := Some verb;
     body := match account with
             | Some k => JsObject [("account", JsString (toBase58 k))]
             | None => JsObject []
             end;
     query :=
       match reference with
       | Some r => {[ "reference" := QString r ]}
       | None => ∅
       end ∪
       match id with
       | Some i => {[ "id" := QString i ]}
       | None => ∅
       end |}.

Definition checkin (account : PublicKey) (id : string) : NextApiRequest :=
  request "POST" (Some account) (Some (toBase58 Sample.reference)) (Some id).

(** ** Start-up: the organizer's key *)

(** What [getEventOrganizer] finds in the language and in web3.js. *)
Record Startup : Type := {
  JSON_parse : string -> Outcome JsValue;
  Uint8Array_from : JsValue -> list byte;
  Keypair_fromSecretKey : list byte -> Outcome Keypair
}.

Definition OrganizerNotFound : Thrown :=
  ThrownValue (JsString "EVENT_ORGANIZER not found").

(** [EVENT_ORGANIZER] is [process.env.EVENT_ORGANIZER]: [None] when the
    variable is not set. *)
Definition getEventOrganizer (lib : Startup) (EVENT_ORGANIZER : option string)
    : Outcome Keypair :=
  match JSON_parse lib (match EVENT_ORGANIZER with
                        | Some text => text
                        | None => ""
                        end) with
  | Threw e => Threw e
  | Returned eventOrganizer =>
      if negb (truthy eventOrganizer)
      then Threw OrganizerNotFound
      else Keypair_fromSecretKey lib (Uint8Array_from lib eventOrganizer)
  end.

(** ** The navigation bar *)

(** The element tree a component returns.  A number among the children or
    in a template literal prints in decimal, as JavaScript prints the
    integers the registry uses as indices. *)
#[warnings="-register-all"]
Inductive JSX : Type :=
| Element (type : string) (key : option Z)
          (props : list (string * JSXProp)) (children : list JSX)
| JsxText (s : string)
| JsxNumber (n : Z)
with JSXProp : Type :=
| PropString (s : string)
| PropNumber (n : Z)
| PropComponent (name : string)
| PropElement (e : JSX).

Definition Navbar (locations : list Location) : JSX :=
  Element "Flex" None [("px", PropNumber 4); ("py", PropNumber 4)]
    [ Element "Menu" None []
        [ Element "MenuButton" None
            [("as", PropComponent "IconButton");
             ("icon", PropElement (Element "HamburgerIcon" None [] []));
             ("variant", PropString "outline")] [];
          Element "MenuList" None []
            (Element "MenuItem" None
               [("as", PropComponent "Link"); ("href", PropString "/")]
               [JsxText "SOL Transfer"]
             :: map (fun location =>
                       Element "MenuItem" (Some (index location))
                         [("as", PropComponent "Link");
                          ("href",
                           PropString ("/location/"
                                       +:+ pretty (index location)))]
                         [JsxText "Location "; JsxNumber (index location)])
                    locations) ] ].

(** The [href] of an element, when it has one. *)
Fixpoint href_of (props : list (string * JSXProp)) : list string :=
  match props with
  | [] => []
  | (name, PropString target) :: rest =>
      if String.eqb name "href" then [target] else href_of rest
  | _ :: rest => href_of rest
  end.

(** The link targets of a tree, in document order. *)
Fixpoint links (e : JSX) : list string :=
  match e with
  | Element _ _ props children =>
      href_of props ++
      (fix over (cs : list JSX) : list string :=
         match cs with
         | [] => []
         | c :: rest => links c ++ over rest
         end) children
  | JsxText _ | JsxNumber _ => []
  end.

(** A parser that knows three texts, enough to run [getEventOrganizer]. *)
Definition sample_startup : Startup :=
  {| JSON_parse := fun text =>
       if String.eqb text "[1,2,3]"
       then Returned (JsArray [JsNumber 1; JsNumber 2; JsNumber 3])
       else if String.eqb text "null" then Returned JsNull
       else Threw (ThrownValue (JsString "Unexpected end of JSON input"));
     Uint8Array_from := fun v =>
       match v with
       | JsArray [JsNumber 1; JsNumber 2; JsNumber 3] => [x01; x02; x03]
       | _ => []
       end;
     Keypair_fromSecretKey := fun bytes =>
       match bytes with
       | [x01; x02; x03] => Returned Sample.organizer
       | _ => Threw (ThrownValue (JsString "bad secret key size"))
       end |}.

(** ** Reading base64 *)

(** The place of a character in the alphabet, as a decoder reads a digit;
    64 for a character that is not in the alphabet. *)
Definition digit_value (c : ascii) : N :=
  (fix place (s : string) (i : N) : N :=
     match s with
     | EmptyString => 64%N
     | String d rest => if Ascii.eqb c d then i else place rest (N.succ i)
     end) Base64.alphabet 0%N.

(** ** Vocabulary of the statements *)

(** The address of the player's state account. *)
Definition userStatePDA (rt : Runtime) (account : PublicKey) : PublicKey :=
  findProgramAddressSync rt [gameId rt; account] (program_programId rt).

(** What [fetchUserState] hands to [buildTransaction]: the account when the
    fetch answers, nothing when it throws. *)
Definition fetched (rt : Runtime) (account : PublicKey) : option UserState :=
  match userState_fetch rt (userStatePDA rt account) with
  | Returned st => Some st
  | Threw _ => None
  end.

(** The location the player stands at, as [verifyCorrectLocation] finds it. *)
Definition standing_at (rt : Runtime) (st : UserState) : option Location :=
  find (fun location =>
          String.eqb (PublicKey_toString (key location))
                     (PublicKey_toString (lastLocation st)))
       (locations rt).

Definition referenceMeta (reference : PublicKey) : AccountMeta :=
  {| pubkey := reference; isSigner := false; isWritable := false |}.

Definition serializeConfig : SerializeConfig :=
  {| requireAllSignatures := Some false; verifySignatures := None |}.

(** [t] is the base64 text of the transaction paid by [account] that holds
    the instructions [ixs], signed by the organizer and serialized without
    requiring all signatures. *)
Definition assembled (rt : Runtime) (account : PublicKey)
    (ixs : list TransactionInstruction) (t : string) : Prop :=
  ∃ latest signed bytes,
    getLatestBlockhash rt = Returned latest ∧
    partialSign rt
      {| feePayer := Some account;
         recentBlockhash := Some (fst latest);
         lastValidBlockHeight := Some (snd latest);
         instructions := ixs;
         signatures := [] |} (eventOrganizer rt) = Returned signed ∧
    serialize rt serializeConfig signed = Returned bytes ∧
    t = Base64.encode bytes.

(** The check-in instruction for [loc] as the handler adds it: what the
    program client built, with the reference key pushed on its keys. *)
Definition checkIn_instruction (rt : Runtime) (account reference : PublicKey)
    (loc : Location) (ix : TransactionInstruction) : Prop :=
  ∃ built,
    methods_checkIn rt (gameId rt) (key loc) account
                    (publicKey (eventOrganizer rt)) = Returned built ∧
    ix = keys_push built (referenceMeta reference).

(** A transaction with an initialize and a check-in instruction. *)
Definition initialize_and_checkIn (rt : Runtime)
    (account reference : PublicKey) (loc : Location) (t : string) : Prop :=
  ∃ initIx checkIx,
    methods_initialize rt (gameId rt) account = Returned initIx ∧
    checkIn_instruction rt account reference loc checkIx ∧
    assembled rt account [initIx; checkIx] t.

(** A transaction with a check-in instruction and nothing else. *)
Definition checkIn_only (rt : Runtime) (account reference : PublicKey)
    (loc : Location) (t : string) : Prop :=
  ∃ checkIx,
    checkIn_instruction rt account reference loc checkIx ∧
    assembled rt account [checkIx] t.

Definition transaction_for (rt : Runtime) (account reference : PublicKey)
    (loc : Location) (st : option UserState) (t : string) : Prop :=
  match st with
  | None => initialize_and_checkIn rt account reference loc t
  | Some _ => checkIn_only rt account reference loc t
  end.

(** A POST request that passes the parameter check and whose keys parse:
    [buildTransaction] is called on [account], [reference] and [id]. *)
Definition valid_post (rt : Runtime) (req : NextApiRequest)
    (account reference : PublicKey) (id : string) : Prop :=
  method req = Some "POST" ∧
  truthy (body_prop req "account") = true ∧
  truthy (query_js (query req !! "reference")) = true ∧
  truthy (query_js (query req !! "id")) = true ∧
  PublicKey_new rt (body_prop req "account") = Returned account ∧
  PublicKey_new rt (query_js (query req !! "reference")) = Returned reference ∧
  method_toString (query req !! "id") = Returned id.

(** The answer to a check-in that went through. *)
Definition found (req : NextApiRequest) (t : string) : Response :=
  {| status := 200;
     json := JsObject
       [("transaction", JsString t);
        ("message",
         JsString ("You've found location "
                   +:+ template_string (query req !! "id") +:+ "!"))] |}.

(** The answer to a thrown value that has a message. *)
Definition explained (e : Thrown) : Response :=
  {| status := 200;
     json := JsObject [("transaction", JsString "");
                       ("message", message e)] |}.

(** The answer of the [catch] block. *)
Definition caught (e : Thrown) : Response :=
  if truthy (message e) then explained e else ErrorCreatingTransaction.

(** How the [catch] block ends: with its answer, or with the error of
    reading the message of [undefined] or [null]. *)
Definition catch_block (e : Thrown) : Outcome Response :=
  match read_message e with
  | Returned _ => Returned (caught e)
  | Threw e' => Threw e'
  end.

(** The body is a value that can be destructured. *)
Definition body_readable (req : NextApiRequest) : Prop :=
  body req ≠ JsUndefined ∧ body req ≠ JsNull.

(** The calls [buildTransaction] makes when a transaction comes out. *)
Definition calls_made (rt : Runtime) (account : PublicKey) (loc : Location)
    (st : option UserState) : list Event :=
  [RpcFetchUserState (userStatePDA rt account); RpcGetLatestBlockhash]
  ++ match st with
     | None => [ProgramInitialize (gameId rt) account]
     | Some _ => []
     end
  ++ [ProgramCheckIn (gameId rt) (key loc) account
                     (publicKey (eventOrganizer rt))].

(** A collaborator other than the state account threw [e] while the
    transaction was built. *)
Inductive collaborator_threw (rt : Runtime) (e : Thrown) : Prop :=
| blockhash_threw :
    getLatestBlockhash rt = Threw e → collaborator_threw rt e
| initialize_threw game player :
    methods_initialize rt game player = Threw e → collaborator_threw rt e
| checkIn_threw game locationKey player organizer :
    methods_checkIn rt game locationKey player organizer = Threw e →
    collaborator_threw rt e
| partialSign_threw tx signer :
    partialSign rt tx signer = Threw e → collaborator_threw rt e
| serialize_threw tx :
    serialize rt serializeConfig tx = Threw e → collaborator_threw rt e.

(** Why [buildTransaction] threw [e]. *)
Inductive build_failure (rt : Runtime) (account : PublicKey) (id : string)
    (e : Thrown) : Prop :=
| failure_invalid :
    locationAtIndex rt (Number_valueOf rt id) = None →
    e = InvalidLocation → build_failure rt account id e
| failure_order loc :
    locationAtIndex rt (Number_valueOf rt id) = Some loc →
    verifyCorrectLocation rt (fetched rt account) loc = false →
    e = OutOfOrderVisit → build_failure rt account id e
| failure_collaborator :
    collaborator_threw rt e → build_failure rt account id e.

(** The three parameters pass the [!account || !reference || !id] test. *)
Definition parameters_present (req : NextApiRequest) : Prop :=
  truthy (body_prop req "account") = true ∧
  truthy (query_js (query req !! "reference")) = true ∧
  truthy (query_js (query req !! "id")) = true.

(** A key of the request does not parse: [e] is what [new PublicKey] threw,
    the account being parsed first. *)
Definition key_rejected (rt : Runtime) (req : NextApiRequest) (e : Thrown)
    : Prop :=
  PublicKey_new rt (body_prop req "account") = Threw e ∨
  (∃ account, PublicKey_new rt (body_prop req "account") = Returned account ∧
     PublicKey_new rt (query_js (query req !! "reference")) = Threw e).

(** The [transaction] field of a response, when it has one. *)
Definition transaction_field (r : Response) : option string :=
  match json r with
  | JsObject ((name, JsString t) :: _) =>
      if String.eqb name "transaction" then Some t else None
  | _ => None
  end.

(** ** Runs of the handler *)

Definition init_calls (rt : Runtime) (account : PublicKey)
    (st : option UserState) : list Event :=
  match st with
  | None => [ProgramInitialize (gameId rt) account]
  | Some _ => []
  end.

(** Both checks of [buildTransaction] let [loc] through. *)
Definition passed (rt : Runtime) (account : PublicKey) (id : string)
    (loc : Location) : Prop :=
  locationAtIndex rt (Number_valueOf rt id) = Some loc ∧
  verifyCorrectLocation rt (fetched rt account) loc = true.

(** The transaction as it is handed to [partialSign]. *)
Definition unsigned (account : PublicKey) (latest : string * Z)
    (ixs : list TransactionInstruction) : Transaction :=
  {| feePayer := Some account;
     recentBlockhash := Some (fst latest);
     lastValidBlockHeight := Some (snd latest);
     instructions := ixs;
     signatures := [] |}.

(** The instructions the program client built for the transaction: the
    initialize instruction for a player without state, then the check-in
    instruction with the reference key. *)
Definition instructions_for (rt : Runtime) (account reference : PublicKey)
    (loc : Location) (st : option UserState)
    (ixs : list TransactionInstruction) : Prop :=
  match st with
  | None =>
      ∃ initIx checkIx,
        methods_initialize rt (gameId rt) account = Returned initIx ∧
        checkIn_instruction rt account reference loc checkIx ∧
        ixs = [initIx; checkIx]
  | Some _ =>
      ∃ checkIx,
        checkIn_instruction rt account reference loc checkIx ∧
        ixs = [checkIx]
  end.

(** [buildTransaction] threw [e] after the outside calls [calls]: the step
    that threw, and every step before it having gone through. *)
Inductive build_fails (rt : Runtime) (account reference : PublicKey)
    (id : string) : Thrown → list Event → Prop :=
| fails_invalid :
    locationAtIndex rt (Number_valueOf rt id) = None →
    build_fails rt account reference id InvalidLocation
      [RpcFetchUserState (userStatePDA rt account)]
| fails_order loc :
    locationAtIndex rt (Number_valueOf rt id) = Some loc →
    verifyCorrectLocation rt (fetched rt account) loc = false →
    build_fails rt account reference id OutOfOrderVisit
      [RpcFetchUserState (userStatePDA rt account)]
| fails_blockhash loc e :
    passed rt account id loc →
    getLatestBlockhash rt = Threw e →
    build_fails rt account reference id e
      [RpcFetchUserState (userStatePDA rt account); RpcGetLatestBlockhash]
| fails_initialize loc latest e :
    passed rt account id loc →
    getLatestBlockhash rt = Returned latest →
    fetched rt account = None →
    methods_initialize rt (gameId rt) account = Threw e →
    build_fails rt account reference id e
      [RpcFetchUserState (userStatePDA rt account); RpcGetLatestBlockhash;
       ProgramInitialize (gameId rt) account]
| fails_checkIn loc latest e :
    passed rt account id loc →
    getLatestBlockhash rt = Returned latest →
    (fetched rt account = None →
     ∃ ix, methods_initialize rt (gameId rt) account = Returned ix) →
    methods_checkIn rt (gameId rt) (key loc) account
                    (publicKey (eventOrganizer rt)) = Threw e →
    build_fails rt account reference id e
      (calls_made rt account loc (fetched rt account))
| fails_partialSign loc latest ixs e :
    passed rt account id loc →
    getLatestBlockhash rt = Returned latest →
    instructions_for rt account reference loc (fetched rt account) ixs →
    partialSign rt (unsigned account latest ixs) (eventOrganizer rt)
      = Threw e →
    build_fails rt account reference id e
      (calls_made rt account loc (fetched rt account))
| fails_serialize loc latest ixs signed e :
    passed rt account id loc →
    getLatestBlockhash rt = Returned latest →
    instructions_for rt account reference loc (fetched rt account) ixs →
    partialSign rt (unsigned account latest ixs) (eventOrganizer rt)
      = Returned signed →
    serialize rt serializeConfig signed = Threw e →
    build_fails rt account reference id e
      (calls_made rt account loc (fetched rt account)).

(** The [try] block of [post] threw [e] after the outside calls [calls]: a
    key was rejected, or [buildTransaction] failed. *)
Inductive post_fails (rt : Runtime) (req : NextApiRequest)
    : Thrown → list Event → Prop :=
| fails_key e :
    key_rejected rt req e → post_fails rt req e []
| fails_build account reference id e calls :
    valid_post rt req account reference id →
    build_fails rt account reference id e calls →
    post_fails rt req e calls.

(** The handler ended on [req] with [out] after the events [evs]. *)
Inductive outcome (rt : Runtime) (req : NextApiRequest)
    : Outcome Response → list Event → Prop :=
| outcome_get :
    method req = Some "GET" → outcome rt req (Returned get) []
| outcome_other :
    method req ≠ Some "GET" → method req ≠ Some "POST" →
    outcome rt req (Returned MethodNotAllowed) []
| outcome_unreadable e :
    method req = Some "POST" →
    destructure_body req "account" = Threw e →
    outcome rt req (Threw e) []
| outcome_missing :
    method req = Some "POST" → body_readable req →
    ¬ parameters_present req →
    outcome rt req (Returned MissingParameters) []
| outcome_found account reference id loc t :
    valid_post rt req account reference id →
    passed rt account id loc →
    transaction_for rt account reference loc (fetched rt account) t →
    outcome rt req (Returned (found req t))
      (calls_made rt account loc (fetched rt account))
| outcome_failed e calls :
    method req = Some "POST" → parameters_present req →
    post_fails rt req e calls →
    outcome rt req (catch_block e) (calls ++ [ConsoleLog e]).

(** Every outside call the request can lead to, in the order the handler
    makes them: the fetch of the state of the account of the request, and,
    when the id names a location, the blockhash fetch, the initialize
    instruction if the fetch gave no state, and the check-in instruction. *)
Definition request_calls (rt : Runtime) (req : NextApiRequest)
    : list Event :=
  match PublicKey_new rt (body_prop req "account") with
  | Threw _ => []
  | Returned account =>
      RpcFetchUserState (userStatePDA rt account) ::
      match locationAtIndex rt
              (Number_valueOf rt (template_string (query req !! "id"))) with
      | None => []
      | Some loc =>
          RpcGetLatestBlockhash ::
          init_calls rt account (fetched rt account) ++
          [ProgramCheckIn (gameId rt) (key loc) account
                          (publicKey (eventOrganizer rt))]
      end
  end.

(** ** How the functions run *)

Section Runs.

Variable rt : Runtime.

Lemma fetchUserState_run account tr :
  fetchUserState rt account tr =
  (Returned (fetched rt account),
   tr ++ [RpcFetchUserState (userStatePDA rt account)]).
Proof.
  unfold fetchUserState, try_catch, bind, call, ret, fetched, userStatePDA.
  destruct (userState_fetch rt _); reflexivity.
Qed.

Lemma verifyCorrectLocation_first loc :
  verifyCorrectLocation rt None loc = true ↔ index loc = 1.
Proof. simpl. apply Z.eqb_eq. Qed.

Lemma verifyCorrectLocation_next st last loc :
  standing_at rt st = Some last →
  verifyCorrectLocation rt (Some st) loc = true ↔ index loc = index last + 1.
Proof.
  unfold standing_at, verifyCorrectLocation. intros ->.
  destruct (Z.eqb_spec (index loc) (index last + 1)); simpl; split;
    congruence.
Qed.

Lemma verifyCorrectLocation_lost st loc :
  standing_at rt st = None → verifyCorrectLocation rt (Some st) loc = false.
Proof. unfold standing_at, verifyCorrectLocation. intros ->. reflexivity. Qed.

(** The two validation failures leave [buildTransaction] right after the
    state fetch. *)
Lemma buildTransaction_invalid account reference id tr :
  locationAtIndex rt (Number_valueOf rt id) = None →
  buildTransaction rt account reference id tr =
  (Threw InvalidLocation,
   tr ++ [RpcFetchUserState (userStatePDA rt account)]).
Proof.
  intros Hloc. unfold buildTransaction, bind.
  rewrite fetchUserState_run, Hloc. reflexivity.
Qed.

Lemma buildTransaction_out_of_order account reference id loc tr :
  locationAtIndex rt (Number_valueOf rt id) = Some loc →
  verifyCorrectLocation rt (fetched rt account) loc = false →
  buildTransaction rt account reference id tr =
  (Threw OutOfOrderVisit,
   tr ++ [RpcFetchUserState (userStatePDA rt account)]).
Proof.
  intros Hloc Hv. unfold buildTransaction, bind.
  rewrite fetchUserState_run, Hloc, Hv. reflexivity.
Qed.

Ltac run_build :=
  unfold buildTransaction, createInitUserInstruction,
    createCheckInInstruction, bind, call, ret, throw, lift in *;
  rewrite fetchUserState_run in *.

(** A transaction comes out only past both checks, and it is the one the
    player's state calls for. *)
Lemma buildTransaction_returned account reference id tr t tr' :
  buildTransaction rt account reference id tr = (Returned t, tr') →
  ∃ loc,
    locationAtIndex rt (Number_valueOf rt id) = Some loc ∧
    verifyCorrectLocation rt (fetched rt account) loc = true ∧
    transaction_for rt account reference loc (fetched rt account) t.
Proof.
  intros H. run_build.
  destruct (locationAtIndex rt _) as [loc|] eqn:Hloc; [|discriminate].
  exists loc. split; [reflexivity|].
  destruct (verifyCorrectLocation rt _ loc) eqn:Hv; [|discriminate].
  split; [reflexivity|]. simpl in H.
  destruct (getLatestBlockhash rt) as [latest|] eqn:Hlatest; [|discriminate].
  unfold transaction_for, initialize_and_checkIn, checkIn_only,
    checkIn_instruction, assembled.
  destruct (fetched rt account) as [st|].
  - destruct (methods_checkIn rt _ _ _ _) as [checkIx|] eqn:Hc;
      [|discriminate].
    destruct (partialSign rt _ _) as [signed|] eqn:Hs; [|discriminate].
    destruct (serialize rt _ _) as [bytes|] eqn:Hb; [|discriminate].
    injection H as <- <-. rewrite Hlatest. eauto 12.
  - destruct (methods_initialize rt _ _) as [initIx|] eqn:Hi; [|discriminate].
    destruct (methods_checkIn rt _ _ _ _) as [checkIx|] eqn:Hc;
      [|discriminate].
    destruct (partialSign rt _ _) as [signed|] eqn:Hs; [|discriminate].
    destruct (serialize rt _ _) as [bytes|] eqn:Hb; [|discriminate].
    injection H as <- <-. rewrite Hlatest. eauto 14.
Qed.

(** Past both checks, the transaction comes out when the collaborators
    answer. *)
Lemma buildTransaction_complete account reference id loc tr t :
  locationAtIndex rt (Number_valueOf rt id) = Some loc →
  verifyCorrectLocation rt (fetched rt account) loc = true →
  transaction_for rt account reference loc (fetched rt account) t →
  buildTransaction rt account reference id tr =
  (Returned t, tr ++ calls_made rt account loc (fetched rt account)).
Proof.
  intros Hloc Hv Ht. run_build. rewrite Hloc, Hv. simpl.
  unfold calls_made.
  destruct (fetched rt account) as [st|]; simpl in Ht.
  - destruct Ht as (checkIx & (built & Hc & ->) &
                    latest & signed & bytes & Hl & Hs & Hb & ->).
    rewrite Hl, Hc. simpl. unfold Transaction_add, Transaction_new. simpl.
    unfold referenceMeta in Hs. rewrite Hs.
    unfold serializeConfig in Hb. rewrite Hb.
    rewrite <- !app_assoc. reflexivity.
  - destruct Ht as (initIx & checkIx & Hi & (built & Hc & ->) &
                    latest & signed & bytes & Hl & Hs & Hb & ->).
    rewrite Hl, Hi, Hc. simpl. unfold Transaction_add, Transaction_new. simpl.
    unfold referenceMeta in Hs. rewrite Hs.
    unfold serializeConfig in Hb. rewrite Hb.
    rewrite <- !app_assoc. reflexivity.
Qed.

(** Whatever [buildTransaction] throws is a validation failure or comes
    from a collaborator other than the state account. *)
Lemma buildTransaction_threw account reference id tr e tr' :
  buildTransaction rt account reference id tr = (Threw e, tr') →
  build_failure rt account id e.
Proof.
  intros H. run_build.
  destruct (locationAtIndex rt _) as [loc|] eqn:Hloc.
  2: { injection H as <- _. by apply failure_invalid. }
  destruct (verifyCorrectLocation rt _ loc) eqn:Hv; simpl in H.
  2: { injection H as <- _. by eapply failure_order. }
  apply failure_collaborator.
  destruct (getLatestBlockhash rt) as [latest|] eqn:Hlatest.
  2: { injection H as <- _. by apply blockhash_threw. }
  destruct (fetched rt account) as [st|].
  - destruct (methods_checkIn rt _ _ _ _) as [checkIx|] eqn:Hc.
    2: { injection H as <- _. by eapply checkIn_threw. }
    destruct (partialSign rt _ _) as [signed|] eqn:Hs.
    2: { injection H as <- _. by eapply partialSign_threw. }
    destruct (serialize rt _ _) as [bytes|] eqn:Hb; [discriminate|].
    injection H as <- _. by eapply serialize_threw.
  - destruct (methods_initialize rt _ _) as [initIx|] eqn:Hi.
    2: { injection H as <- _. by eapply initialize_threw. }
    destruct (methods_checkIn rt _ _ _ _) as [checkIx|] eqn:Hc.
    2: { injection H as <- _. by eapply checkIn_threw. }
    destruct (partialSign rt _ _) as [signed|] eqn:Hs.
    2: { injection H as <- _. by eapply partialSign_threw. }
    destruct (serialize rt _ _) as [bytes|] eqn:Hb; [discriminate|].
    injection H as <- _. by eapply serialize_threw.
Qed.

(** Past both checks the blockhash is fetched; if that throws, so does
    [buildTransaction]. *)
Lemma buildTransaction_blockhash_threw account reference id loc e tr :
  locationAtIndex rt (Number_valueOf rt id) = Some loc →
  verifyCorrectLocation rt (fetched rt account) loc = true →
  getLatestBlockhash rt = Threw e →
  buildTransaction rt account reference id tr =
  (Threw e,
   tr ++ [RpcFetchUserState (userStatePDA rt account);
          RpcGetLatestBlockhash]).
Proof.
  intros Hloc Hv Hl. run_build. rewrite Hloc, Hv, Hl. simpl.
  by rewrite <- app_assoc.
Qed.

Lemma handler_post req :
  method req = Some "POST" → handler rt req = post rt req.
Proof. intros H. unfold handler, method_is. rewrite H. reflexivity. Qed.

(** Destructuring a body that is neither [undefined] nor [null] reads the
    property. *)
Lemma destructure_readable req name :
  body_readable req →
  destructure_body req name = Returned (body_prop req name).
Proof.
  unfold body_readable, destructure_body. intros (Hu & Hn).
  by destruct (body req).
Qed.

Lemma destructure_unreadable req name e :
  destructure_body req name = Threw e → ¬ body_readable req.
Proof.
  unfold body_readable, destructure_body. intros H (Hu & Hn).
  by destruct (body req).
Qed.

Lemma body_readable_dec req : {body_readable req} + {¬ body_readable req}.
Proof.
  unfold body_readable.
  destruct (body req); first [left; by split | right; by intros (? & ?)].
Qed.

(** An account that passes the check was read from a body that can be
    destructured. *)
Lemma present_readable req :
  truthy (body_prop req "account") = true → body_readable req.
Proof.
  unfold body_prop, body_readable. by destruct (body req).
Qed.

(** Destructuring [undefined] or [null] ends [post] before the parameter
    check. *)
Lemma post_unreadable req e tr :
  destructure_body req "account" = Threw e →
  post rt req tr = (Threw e, tr).
Proof. intros H. unfold post, bind, lift. by rewrite H. Qed.

(** The parameter check of [post]. *)
Lemma post_missing req tr :
  body_readable req → ¬ parameters_present req →
  post rt req tr = (Returned MissingParameters, tr).
Proof.
  unfold parameters_present, post. intros Hbody H.
  unfold bind, lift. rewrite (destructure_readable req "account" Hbody).
  destruct (truthy (body_prop req "account"));
    destruct (truthy (query_js (query req !! "reference")));
    destruct (truthy (query_js (query req !! "id")));
    try reflexivity.
  exfalso. apply H. auto.
Qed.

(** A thrown value with a truthy message is neither [undefined] nor
    [null]; the [catch] block answers it. *)
Lemma catch_block_value m :
  catch_block (ThrownValue m) = Returned (caught (ThrownValue m)).
Proof. reflexivity. Qed.

Lemma catch_block_truthy e :
  truthy (message e) = true → catch_block e = Returned (caught e).
Proof. by destruct e. Qed.

Lemma catch_block_returned e resp :
  catch_block e = Returned resp → resp = caught e.
Proof. destruct e; [discriminate..|]. by intros [= <-]. Qed.

Lemma present_toString req :
  parameters_present req →
  method_toString (query req !! "id") =
  Returned (template_string (query req !! "id")).
Proof.
  intros (_ & _ & H). destruct (query req !! "id"); [reflexivity|].
  discriminate.
Qed.

(** Past the parameter check with keys that parse, [post] answers by what
    [buildTransaction] does. *)
Lemma post_valid req account reference id tr :
  valid_post rt req account reference id →
  post rt req tr =
  match buildTransaction rt account reference id tr with
  | (Returned t, tr') => (Returned (found req t), tr')
  | (Threw e, tr') => (catch_block e, tr' ++ [ConsoleLog e])
  end.
Proof.
  intros (_ & Ha & Hr & Hi & Hka & Hkr & Hid).
  unfold post, bind, lift.
  rewrite (destructure_readable req "account" (present_readable req Ha)).
  rewrite Ha, Hr, Hi. simpl.
  unfold try_catch, bind, lift. rewrite Hka, Hkr, Hid.
  destruct (buildTransaction rt account reference id tr) as [[t|e] tr'].
  - reflexivity.
  - unfold call, ret, catch_block, caught.
    destruct e as [| |m]; try reflexivity.
    simpl. destruct (truthy m); reflexivity.
Qed.

(** A key that does not parse is answered by the [catch] block, before any
    outside call. *)
Lemma post_key_rejected req e tr :
  parameters_present req → key_rejected rt req e →
  post rt req tr = (catch_block e, tr ++ [ConsoleLog e]).
Proof.
  intros (Ha & Hr & Hi) Hk.
  unfold post, bind, lift.
  rewrite (destructure_readable req "account" (present_readable req Ha)).
  rewrite Ha, Hr, Hi. simpl.
  unfold try_catch, bind, lift, call, ret, catch_block, caught.
  destruct Hk as [Hk | (account & Hk1 & Hk2)].
  - rewrite Hk. destruct e as [| |m]; try reflexivity.
    simpl. destruct (truthy m); reflexivity.
  - rewrite Hk1, Hk2. destruct e as [| |m]; try reflexivity.
    simpl. destruct (truthy m); reflexivity.
Qed.

(** Past the parameter check either a key is rejected or the request is
    valid. *)
Lemma present_cases req :
  method req = Some "POST" → parameters_present req →
  (∃ e, key_rejected rt req e) ∨
  (∃ account reference id, valid_post rt req account reference id).
Proof.
  intros Hm Hp. pose proof (present_toString req Hp) as Hid.
  destruct Hp as (Ha & Hr & Hi). unfold key_rejected, valid_post.
  destruct (PublicKey_new rt (body_prop req "account")) as [a|e] eqn:Hka.
  - destruct (PublicKey_new rt (query_js (query req !! "reference")))
      as [r|e] eqn:Hkr.
    + right. eauto 12.
    + left. eauto.
  - left. eauto.
Qed.

Lemma transaction_field_caught e t :
  transaction_field (caught e) = Some t → t = "".
Proof.
  unfold caught. destruct (truthy (message e)); intros H.
  - cbv in H. congruence.
  - discriminate H.
Qed.

(** A response that carries a transaction comes from a run of
    [buildTransaction] that returned it. *)
Lemma response_transaction req account reference id tr resp t :
  valid_post rt req account reference id →
  fst (handler rt req tr) = Returned resp →
  transaction_field resp = Some t → t ≠ "" →
  resp = found req t ∧
  ∃ tr', buildTransaction rt account reference id tr = (Returned t, tr').
Proof.
  intros Hvalid Hresp Hfield Hne.
  rewrite (handler_post req) in Hresp by apply Hvalid.
  rewrite (post_valid _ _ _ _ _ Hvalid) in Hresp.
  destruct (buildTransaction rt account reference id tr) as [[t'|e] tr'];
    simpl in Hresp.
  - injection Hresp as <-. simpl in Hfield. injection Hfield as ->. eauto.
  - apply catch_block_returned in Hresp as ->.
    apply transaction_field_caught in Hfield. contradiction.
Qed.

(** The response to a valid request, in the three ways it can go. *)
Lemma handler_invalid req account reference id tr :
  valid_post rt req account reference id →
  locationAtIndex rt (Number_valueOf rt id) = None →
  handler rt req tr =
  (Returned (explained InvalidLocation),
   tr ++ [RpcFetchUserState (userStatePDA rt account);
          ConsoleLog InvalidLocation]).
Proof.
  intros Hvalid Hloc. rewrite handler_post by apply Hvalid.
  rewrite (post_valid _ _ _ _ _ Hvalid).
  rewrite buildTransaction_invalid by done.
  rewrite <- app_assoc. reflexivity.
Qed.

Lemma handler_out_of_order req account reference id loc tr :
  valid_post rt req account reference id →
  locationAtIndex rt (Number_valueOf rt id) = Some loc →
  verifyCorrectLocation rt (fetched rt account) loc = false →
  handler rt req tr =
  (Returned (explained OutOfOrderVisit),
   tr ++ [RpcFetchUserState (userStatePDA rt account);
          ConsoleLog OutOfOrderVisit]).
Proof.
  intros Hvalid Hloc Hv. rewrite handler_post by apply Hvalid.
  rewrite (post_valid _ _ _ _ _ Hvalid).
  rewrite (buildTransaction_out_of_order _ _ _ loc) by done.
  rewrite <- app_assoc. reflexivity.
Qed.

Lemma handler_found req account reference id loc tr t :
  valid_post rt req account reference id →
  locationAtIndex rt (Number_valueOf rt id) = Some loc →
  verifyCorrectLocation rt (fetched rt account) loc = true →
  transaction_for rt account reference loc (fetched rt account) t →
  handler rt req tr =
  (Returned (found req t),
   tr ++ calls_made rt account loc (fetched rt account)).
Proof.
  intros Hvalid Hloc Hv Ht. rewrite handler_post by apply Hvalid.
  rewrite (post_valid _ _ _ _ _ Hvalid).
  by rewrite (buildTransaction_complete _ _ _ loc _ t).
Qed.

End Runs.

Section Answers.

Variable rt : Runtime.

Lemma parameters_present_dec req :
  {parameters_present req} + {¬ parameters_present req}.
Proof.
  unfold parameters_present.
  destruct (truthy (body_prop req "account"));
    destruct (truthy (query_js (query req !! "reference")));
    destruct (truthy (query_js (query req !! "id")));
    first [left; by auto | right; intros (? & ? & ?); discriminate].
Qed.

(** A POST answered with a transaction was valid, passed both checks and
    got the transaction its state calls for. *)
Lemma post_transaction_inv req tr resp t :
  method req = Some "POST" →
  fst (handler rt req tr) = Returned resp →
  transaction_field resp = Some t → t ≠ "" →
  ∃ account reference id loc,
    valid_post rt req account reference id ∧
    locationAtIndex rt (Number_valueOf rt id) = Some loc ∧
    verifyCorrectLocation rt (fetched rt account) loc = true ∧
    transaction_for rt account reference loc (fetched rt account) t ∧
    resp = found req t.
Proof.
  intros Hm Hresp Hfield Hne.
  destruct (parameters_present_dec req) as [Hp|Hp].
  - destruct (present_cases rt req Hm Hp)
      as [(e & Hk) | (account & reference & id & Hvalid)].
    + rewrite handler_post, (post_key_rejected rt req e tr Hp Hk) in Hresp
        by done.
      apply catch_block_returned in Hresp as ->.
      apply transaction_field_caught in Hfield. contradiction.
    + destruct (response_transaction rt req account reference id tr resp t)
        as (-> & tr' & Hrun); try done.
      apply buildTransaction_returned in Hrun as (loc & Hloc & Hv & Ht).
      exists account, reference, id, loc. auto.
  - rewrite handler_post in Hresp by done.
    destruct (body_readable_dec req) as [Hbody|Hbody].
    + rewrite (post_missing rt req tr Hbody Hp) in Hresp.
      injection Hresp as <-. discriminate.
    + destruct (destructure_body req "account") as [v|e] eqn:Hd.
      * exfalso. apply Hbody. unfold body_readable, destructure_body in *.
        by destruct (body req).
      * by rewrite (post_unreadable rt req e tr Hd) in Hresp.
Qed.

(** Either kind of transaction ends with the check-in instruction. *)
Lemma transaction_for_assembled account reference loc st t :
  transaction_for rt account reference loc st t →
  ∃ ixs checkIx,
    assembled rt account ixs t ∧ last ixs = Some checkIx ∧
    checkIn_instruction rt account reference loc checkIx.
Proof.
  destruct st as [st|]; simpl.
  - intros (checkIx & Hc & Ha). by exists [checkIx], checkIx.
  - intros (initIx & checkIx & Hi & Hc & Ha).
    by exists [initIx; checkIx], checkIx.
Qed.

End Answers.

Section StateFetch.

Variable rt : Runtime.

(** [buildTransaction] sees the state account only through what
    [fetchUserState] makes of its answer. *)
Lemma buildTransaction_fetch fetch account reference id tr :
  fetched (with_userState_fetch rt fetch) account = fetched rt account →
  buildTransaction (with_userState_fetch rt fetch) account reference id tr =
  buildTransaction rt account reference id tr.
Proof.
  intros H. unfold buildTransaction, bind.
  rewrite !fetchUserState_run, H. reflexivity.
Qed.

Lemma handler_fetch fetch req account reference id tr :
  valid_post rt req account reference id →
  fetched (with_userState_fetch rt fetch) account = fetched rt account →
  handler (with_userState_fetch rt fetch) req tr = handler rt req tr.
Proof.
  intros Hvalid H. rewrite !handler_post by apply Hvalid.
  rewrite (post_valid rt req account reference id tr Hvalid).
  rewrite (post_valid (with_userState_fetch rt fetch)
             req account reference id tr Hvalid).
  by rewrite buildTransaction_fetch.
Qed.

(** A valid request is answered with status 500 only when a collaborator
    other than the state account threw a value without a truthy message. *)
Lemma status_500_inv req account reference id tr resp :
  valid_post rt req account reference id →
  fst (handler rt req tr) = Returned resp → status resp = 500 →
  ∃ e, collaborator_threw rt e ∧ truthy (message e) = false.
Proof.
  intros Hvalid Hresp Hstatus.
  rewrite handler_post, (post_valid rt req account reference id tr Hvalid)
    in Hresp by apply Hvalid.
  destruct (buildTransaction rt account reference id tr)
    as [[t|e] tr'] eqn:Hrun; simpl in Hresp.
  - injection Hresp as <-. discriminate.
  - apply catch_block_returned in Hresp as ->. unfold caught in Hstatus.
    destruct (truthy (message e)) eqn:Hmsg; [discriminate|].
    exists e. split; [|done].
    apply buildTransaction_threw in Hrun.
    destruct Hrun as [_ ->| loc _ _ ->|Hc]; [discriminate..|done].
Qed.

End StateFetch.

(** ** Every run of the handler *)

Section EveryRun.

Variable rt : Runtime.

Ltac unfold_build :=
  unfold buildTransaction, createInitUserInstruction,
    createCheckInInstruction, bind, call, ret, throw, lift;
  rewrite fetchUserState_run.

(** A step of [buildTransaction] that throws makes it throw the same value,
    after the calls made so far. *)
Lemma build_fails_run account reference id e calls tr :
  build_fails rt account reference id e calls →
  buildTransaction rt account reference id tr = (Threw e, tr ++ calls).
Proof.
  intros [Hloc | loc Hloc Hv | loc e' (Hloc & Hv) Hl
          | loc latest e' (Hloc & Hv) Hl Hnone Hi
          | loc latest e' (Hloc & Hv) Hl Hinit Hc
          | loc latest ixs e' (Hloc & Hv) Hl Hixs Hs
          | loc latest ixs signed e' (Hloc & Hv) Hl Hixs Hs Hb].
  - by apply buildTransaction_invalid.
  - by apply (buildTransaction_out_of_order rt _ _ _ loc).
  - by apply (buildTransaction_blockhash_threw rt _ _ _ loc).
  - unfold_build. rewrite Hloc, Hv, Hl, Hnone, Hi. simpl.
    by rewrite <- !app_assoc.
  - unfold_build. rewrite Hloc, Hv, Hl. simpl. unfold calls_made.
    destruct (fetched rt account) as [st|].
    + rewrite Hc. simpl. by rewrite <- !app_assoc.
    + destruct Hinit as (ix & Hi); [done|]. rewrite Hi, Hc. simpl.
      by rewrite <- !app_assoc.
  - unfold_build. rewrite Hloc, Hv, Hl. simpl. unfold calls_made.
    unfold instructions_for, checkIn_instruction, unsigned, referenceMeta
      in *.
    destruct (fetched rt account) as [st|].
    + destruct Hixs as (checkIx & (built & Hc & ->) & ->).
      rewrite Hc. simpl. unfold Transaction_add, Transaction_new. simpl.
      rewrite Hs. by rewrite <- !app_assoc.
    + destruct Hixs as (initIx & checkIx & Hi & (built & Hc & ->) & ->).
      rewrite Hi, Hc. simpl. unfold Transaction_add, Transaction_new. simpl.
      rewrite Hs. by rewrite <- !app_assoc.
  - unfold_build. rewrite Hloc, Hv, Hl. simpl. unfold calls_made.
    unfold instructions_for, checkIn_instruction, unsigned, referenceMeta,
      serializeConfig in *.
    destruct (fetched rt account) as [st|].
    + destruct Hixs as (checkIx & (built & Hc & ->) & ->).
      rewrite Hc. simpl. unfold Transaction_add, Transaction_new. simpl.
      rewrite Hs, Hb. by rewrite <- !app_assoc.
    + destruct Hixs as (initIx & checkIx & Hi & (built & Hc & ->) & ->).
      rewrite Hi, Hc. simpl. unfold Transaction_add, Transaction_new. simpl.
      rewrite Hs, Hb. by rewrite <- !app_assoc.
Qed.

(** Whenever [buildTransaction] throws, one of its steps threw. *)
Lemma buildTransaction_fails account reference id tr e tr' :
  buildTransaction rt account reference id tr = (Threw e, tr') →
  ∃ calls, tr' = tr ++ calls ∧ build_fails rt account reference id e calls.
Proof.
  intros H.
  assert (∀ calls, build_fails rt account reference id e calls →
                   ∃ calls, tr' = tr ++ calls ∧
                            build_fails rt account reference id e calls)
    as Hdone.
  { intros calls Hfails. exists calls. split; [|done].
    rewrite (build_fails_run _ _ _ _ _ tr Hfails) in H. by injection H. }
  revert H. unfold_build.
  destruct (locationAtIndex rt _) as [loc|] eqn:Hloc.
  2: { intros [= <- _]. eapply Hdone. by constructor. }
  destruct (verifyCorrectLocation rt _ loc) eqn:Hv; simpl.
  2: { intros [= <- _]. eapply Hdone. by eapply fails_order. }
  assert (passed rt account id loc) as Hpassed by done.
  destruct (getLatestBlockhash rt) as [latest|] eqn:Hl.
  2: { intros [= <- _]. eapply Hdone. by eapply fails_blockhash. }
  assert (∀ ixs,
            instructions_for rt account reference loc (fetched rt account)
              ixs →
            match partialSign rt (unsigned account latest ixs)
                    (eventOrganizer rt) with
            | Returned signed =>
                match serialize rt serializeConfig signed with
                | Returned _ => True
                | Threw e' => e' = e →
                    ∃ calls, tr' = tr ++ calls ∧
                             build_fails rt account reference id e calls
                end
            | Threw e' => e' = e →
                ∃ calls, tr' = tr ++ calls ∧
                         build_fails rt account reference id e calls
            end) as Hlate.
  { intros ixs Hixs.
    destruct (partialSign rt _ _) as [signed|e'] eqn:Hs.
    - destruct (serialize rt _ _) as [bytes|e''] eqn:Hb; [done|].
      intros ->. eapply Hdone. by eapply fails_serialize.
    - intros ->. eapply Hdone. by eapply fails_partialSign. }
  assert (∀ e',
            (fetched rt account = None →
             ∃ ix, methods_initialize rt (gameId rt) account = Returned ix) →
            methods_checkIn rt (gameId rt) (key loc) account
              (publicKey (eventOrganizer rt)) = Threw e' → e' = e →
            ∃ calls, tr' = tr ++ calls ∧
                     build_fails rt account reference id e calls) as HcheckIn.
  { intros e' Hinit Hc ->. eapply Hdone. by eapply fails_checkIn. }
  assert (fetched rt account = None →
          ∀ e', methods_initialize rt (gameId rt) account = Threw e' →
                e' = e →
                ∃ calls, tr' = tr ++ calls ∧
                         build_fails rt account reference id e calls)
    as Hinitialize.
  { intros Hnone e' Hi ->. eapply Hdone. by eapply fails_initialize. }
  clear Hdone Hpassed Hv.
  unfold instructions_for, checkIn_instruction, unsigned, referenceMeta,
    serializeConfig in Hlate.
  destruct (fetched rt account) as [st|].
  - destruct (methods_checkIn rt _ _ _ _) as [built|e'] eqn:Hc.
    2: { intros [= -> _]. by eapply HcheckIn. }
    simpl. unfold Transaction_add, Transaction_new. simpl.
    specialize (Hlate [keys_push built
                         {| pubkey := reference; isSigner := false;
                            isWritable := false |}]).
    destruct (partialSign rt _ _) as [signed|e'].
    + destruct (serialize rt _ _) as [bytes|e']; [discriminate|].
      intros [= -> _]. apply Hlate; [|done]. eexists. split; [|done].
      by eexists.
    + intros [= -> _]. apply Hlate; [|done]. eexists. split; [|done].
      by eexists.
  - destruct (methods_initialize rt _ _) as [initIx|e'] eqn:Hi.
    2: { intros [= -> _]. by eapply Hinitialize. }
    destruct (methods_checkIn rt _ _ _ _) as [built|e'] eqn:Hc.
    2: { intros [= -> _]. eapply HcheckIn; [|done..]. intros _.
         by eexists. }
    simpl. unfold Transaction_add, Transaction_new. simpl.
    specialize (Hlate [initIx;
                       keys_push built
                         {| pubkey := reference; isSigner := false;
                            isWritable := false |}]).
    destruct (partialSign rt _ _) as [signed|e'].
    + destruct (serialize rt _ _) as [bytes|e']; [discriminate|].
      intros [= -> _]. apply Hlate; [|done].
      eexists _, _. split; [done|]. split; [|done]. by eexists.
    + intros [= -> _]. apply Hlate; [|done].
      eexists _, _. split; [done|]. split; [|done]. by eexists.
Qed.

(** A failure of the [try] block reaches the [catch] block with the value
    that was thrown, after the calls made so far. *)
Lemma post_fails_run req e calls tr :
  method req = Some "POST" → parameters_present req →
  post_fails rt req e calls →
  handler rt req tr = (catch_block e, tr ++ calls ++ [ConsoleLog e]).
Proof.
  intros Hm Hp Hfails. rewrite handler_post by done.
  destruct Hfails as [e Hk | account reference id e calls Hvalid Hbuild].
  - by apply post_key_rejected.
  - rewrite (post_valid rt req account reference id tr Hvalid).
    rewrite (build_fails_run _ _ _ _ _ tr Hbuild).
    by rewrite app_assoc.
Qed.

(** Every run of the handler ends in one of the ways of [outcome]. *)
Lemma handler_outcome req tr :
  ∃ out evs,
    handler rt req tr = (out, tr ++ evs) ∧ outcome rt req out evs.
Proof.
  destruct (decide (method req = Some "GET")) as [Hget|Hget].
  { exists (Returned get), []. split; [|by constructor].
    unfold handler, method_is. rewrite Hget, app_nil_r. reflexivity. }
  destruct (decide (method req = Some "POST")) as [Hpost|Hpost].
  2: { exists (Returned MethodNotAllowed), []. split; [|by constructor].
       rewrite app_nil_r. unfold handler, method_is.
       destruct (method req) as [m|]; [|reflexivity].
       destruct (String.eqb_spec m "GET") as [->|_]; [done|].
       destruct (String.eqb_spec m "POST") as [->|_]; [done|].
       reflexivity. }
  destruct (destructure_body req "account") as [v|e] eqn:Hd.
  2: { exists (Threw e), []. rewrite app_nil_r, handler_post by done.
       split; [by apply post_unreadable | by apply outcome_unreadable]. }
  assert (body_readable req) as Hbody.
  { unfold body_readable, destructure_body in *. by destruct (body req). }
  destruct (parameters_present_dec req) as [Hp|Hp].
  2: { exists (Returned MissingParameters), [].
       rewrite app_nil_r, handler_post by done.
       split; [by apply post_missing | by constructor]. }
  destruct (present_cases rt req Hpost Hp)
    as [(e & Hk) | (account & reference & id & Hvalid)].
  { exists (catch_block e), ([] ++ [ConsoleLog e]).
    split; [|by apply outcome_failed, fails_key].
    apply (post_fails_run req e [] tr Hpost Hp). by constructor. }
  destruct (buildTransaction rt account reference id tr)
    as [[t|e] tr'] eqn:Hrun.
  - pose proof Hrun as Hrun'.
    apply buildTransaction_returned in Hrun' as (loc & Hloc & Hv & Ht).
    rewrite handler_post, (post_valid rt req account reference id tr Hvalid)
      by done.
    rewrite (buildTransaction_complete rt _ _ _ loc tr t Hloc Hv Ht).
    eexists _, _. split; [reflexivity|]. by eapply outcome_found.
  - apply buildTransaction_fails in Hrun as (calls & -> & Hfails).
    exists (catch_block e), (calls ++ [ConsoleLog e]).
    split; [|by eapply outcome_failed, fails_build].
    apply (post_fails_run req e calls tr Hpost Hp). by eapply fails_build.
Qed.

(** The text [buildTransaction] is given is the one the answer prints. *)
Lemma valid_post_id req account reference id :
  valid_post rt req account reference id →
  id = template_string (query req !! "id").
Proof.
  intros (_ & _ & _ & _ & _ & _ & Hid). unfold method_toString in Hid.
  destruct (query req !! "id"); [by injection Hid|discriminate].
Qed.

Lemma request_calls_valid req account reference id :
  valid_post rt req account reference id →
  request_calls rt req =
  match locationAtIndex rt (Number_valueOf rt id) with
  | None => [RpcFetchUserState (userStatePDA rt account)]
  | Some loc => calls_made rt account loc (fetched rt account)
  end.
Proof.
  intros Hvalid. rewrite (valid_post_id _ _ _ _ Hvalid).
  destruct Hvalid as (_ & _ & _ & _ & Hka & _).
  unfold request_calls. rewrite Hka.
  by destruct (locationAtIndex rt _).
Qed.

(** The calls made before a failure are the first of the calls of the
    request. *)
Lemma build_fails_prefix req account reference id e calls :
  valid_post rt req account reference id →
  build_fails rt account reference id e calls →
  calls `prefix_of` request_calls rt req.
Proof.
  intros Hvalid Hfails. rewrite (request_calls_valid _ _ _ _ Hvalid).
  destruct Hfails as [Hloc | loc Hloc Hv | loc e (Hloc & Hv) Hl
          | loc latest e (Hloc & Hv) Hl Hnone Hi
          | loc latest e (Hloc & Hv) Hl Hinit Hc
          | loc latest ixs e (Hloc & Hv) Hl Hixs Hs
          | loc latest ixs signed e (Hloc & Hv) Hl Hixs Hs Hb];
    rewrite Hloc; try done.
  - unfold calls_made. by eexists.
  - unfold calls_made. by eexists.
  - unfold calls_made. rewrite Hnone. by eexists.
Qed.

Lemma post_fails_prefix req e calls :
  post_fails rt req e calls → calls `prefix_of` request_calls rt req.
Proof.
  intros [e' Hk | account reference id e' calls' Hvalid Hbuild].
  - apply prefix_nil.
  - by eapply build_fails_prefix.
Qed.

End EveryRun.

(** ** Runs on the sample game *)

Example base64_vectors :
  map Base64.encode
      [ []; [x66]; [x66; x6f]; [x66; x6f; x6f]; [x66; x6f; x6f; x62];
        [x66; x6f; x6f; x62; x61]; [x66; x6f; x6f; x62; x61; x72];
        [xff; xfe; xfd; x00; x10] ] =
  [ ""; "Zg=="; "Zm8="; "Zm9v"; "Zm9vYg=="; "Zm9vYmE="; "Zm9vYmFy";
    "//79ABA=" ].
Proof. reflexivity. Qed.

(** The example of the specification: a player without state asks for
    location 2, then for location 1. *)
Example newcomer_at_two :
  handler online (checkin Sample.newcomer "2") [] =
  (Returned
     {| status := 200;
        json := JsObject
          [("transaction", JsString "");
           ("message", JsString "You must visit each location in order!")] |},
   [RpcFetchUserState (userStatePDA online Sample.newcomer);
    ConsoleLog OutOfOrderVisit]).
Proof. vm_compute. reflexivity. Qed.

Example newcomer_at_one :
  handler online (checkin Sample.newcomer "1") [] =
  (Returned
     {| status := 200;
        json := JsObject
          [("transaction", JsString "U0lJ");
           ("message", JsString "You've found location 1!")] |},
   [RpcFetchUserState (userStatePDA online Sample.newcomer);
    RpcGetLatestBlockhash;
    ProgramInitialize Sample.gameId Sample.newcomer;
    ProgramCheckIn Sample.gameId Sample.K1 Sample.newcomer
                   (publicKey Sample.organizer)]).
Proof. vm_compute. reflexivity. Qed.

Example veteran_at_two :
  handler online (checkin Sample.veteran "2") [] =
  (Returned
     {| status := 200;
        json := JsObject
          [("transaction", JsString "U0k=");
           ("message", JsString "You've found location 2!")] |},
   [RpcFetchUserState (userStatePDA online Sample.veteran);
    RpcGetLatestBlockhash;
    ProgramCheckIn Sample.gameId Sample.K2 Sample.veteran
                   (publicKey Sample.organizer)]).
Proof. vm_compute. reflexivity. Qed.

(** A query key given twice reaches the handler as an array. *)
Example id_given_twice :
  fst (handler online
         {| method := Some "POST";
            body := JsObject
              [("account", JsString (toBase58 Sample.newcomer))];
            query := {[ "reference" := QString (toBase58 Sample.reference) ]}
                     ∪ {[ "id" := QArray ["1"; "1"] ]} |} []) =
  Returned (explained InvalidLocation).
Proof. vm_compute. reflexivity. Qed.

(** ** The claims *)

(** C1. A valid POST of a player without state: the handler answers with a
    transaction exactly when the id resolves to the location of index 1,
    and that transaction holds an initialize and a check-in instruction;
    any other registered id gets the out-of-order message and an empty
    transaction field.  (The transaction comes out when the blockhash
    fetch, the instruction builders, the signing and the serialization
    answer.) *)
Theorem first_visit_only_at_index_one
    rt req account reference id loc tr :
  valid_post rt req account reference id →
  fetched rt account = None →
  locationAtIndex rt (Number_valueOf rt id) = Some loc →
  (index loc ≠ 1 →
   fst (handler rt req tr) =
   Returned {| status := 200;
               json := JsObject
                 [("transaction", JsString "");
                  ("message",
                   JsString "You must visit each location in order!")] |}) ∧
  (index loc = 1 →
   ∀ t, initialize_and_checkIn rt account reference loc t →
        fst (handler rt req tr) = Returned (found req t)) ∧
  (∀ resp t,
     fst (handler rt req tr) = Returned resp →
     transaction_field resp = Some t → t ≠ "" →
     index loc = 1 ∧ initialize_and_checkIn rt account reference loc t).
Proof.
  intros Hvalid Hnone Hloc. repeat split.
  - intros Hne.
    rewrite (handler_out_of_order rt req account reference id loc); try done.
    rewrite Hnone. simpl. by apply Z.eqb_neq.
  - intros Hone t Ht.
    rewrite (handler_found rt req account reference id loc tr t); try done.
    + rewrite Hnone. by apply verifyCorrectLocation_first.
    + by rewrite Hnone.
  - destruct (response_transaction rt req account reference id tr resp t)
      as (_ & tr' & Hrun); try done.
    apply buildTransaction_returned in Hrun as (loc' & Hloc' & Hv & _).
    rewrite Hloc in Hloc'. injection Hloc' as <-.
    rewrite Hnone in Hv. by apply verifyCorrectLocation_first in Hv.
  - destruct (response_transaction rt req account reference id tr resp t)
      as (_ & tr' & Hrun); try done.
    apply buildTransaction_returned in Hrun as (loc' & Hloc' & _ & Ht).
    rewrite Hloc in Hloc'. injection Hloc' as <-.
    by rewrite Hnone in Ht.
Qed.

Lemma first_visit_only_at_index_one_witness :
  (index {| index := 1; key := Sample.K1 |} ≠ 1 →
   fst (handler online (checkin Sample.newcomer "1") []) =
   Returned {| status := 200;
               json := JsObject
                 [("transaction", JsString "");
                  ("message",
                   JsString "You must visit each location in order!")] |}) ∧
  (index {| index := 1; key := Sample.K1 |} = 1 →
   ∀ t, initialize_and_checkIn online Sample.newcomer Sample.reference
          {| index := 1; key := Sample.K1 |} t →
        fst (handler online (checkin Sample.newcomer "1") []) =
        Returned (found (checkin Sample.newcomer "1") t)) ∧
  (∀ resp t,
     fst (handler online (checkin Sample.newcomer "1") []) = Returned resp →
     transaction_field resp = Some t → t ≠ "" →
     index {| index := 1; key := Sample.K1 |} = 1 ∧
     initialize_and_checkIn online Sample.newcomer Sample.reference
       {| index := 1; key := Sample.K1 |} t).
Proof.
  apply (first_visit_only_at_index_one online (checkin Sample.newcomer "1")
           Sample.newcomer Sample.reference "1"
           {| index := 1; key := Sample.K1 |} []).
  - repeat split; vm_compute; reflexivity.
  - vm_compute; reflexivity.
  - vm_compute; reflexivity.
Defined.

(** C2. A valid POST of a player whose state names the registered location
    of index N: the handler answers with a transaction exactly when the id
    resolves to the location of index N+1, and that transaction holds the
    check-in instruction only (the program client is not asked for an
    initialize instruction); a registered id of index at most N or above
    N+1 gets the out-of-order message and an empty transaction field. *)
Theorem next_visit_only_at_following_index
    rt req account reference id st last loc tr :
  valid_post rt req account reference id →
  fetched rt account = Some st →
  standing_at rt st = Some last →
  locationAtIndex rt (Number_valueOf rt id) = Some loc →
  (index loc <= index last ∨ index loc > index last + 1 →
   fst (handler rt req tr) =
   Returned {| status := 200;
               json := JsObject
                 [("transaction", JsString "");
                  ("message",
                   JsString "You must visit each location in order!")] |}) ∧
  (index loc = index last + 1 →
   ∀ t, checkIn_only rt account reference loc t →
        handler rt req tr =
        (Returned (found req t),
         tr ++ [RpcFetchUserState (userStatePDA rt account);
                RpcGetLatestBlockhash;
                ProgramCheckIn (gameId rt) (key loc) account
                               (publicKey (eventOrganizer rt))])) ∧
  (∀ resp t,
     fst (handler rt req tr) = Returned resp →
     transaction_field resp = Some t → t ≠ "" →
     index loc = index last + 1 ∧ checkIn_only rt account reference loc t).
Proof.
  intros Hvalid Hsome Hlast Hloc. repeat split.
  - intros Hne.
    rewrite (handler_out_of_order rt req account reference id loc); try done.
    rewrite Hsome.
    destruct (verifyCorrectLocation rt (Some st) loc) eqn:Hv; [|done].
    apply (verifyCorrectLocation_next rt st last loc Hlast) in Hv. lia.
  - intros Hnext t Ht.
    rewrite (handler_found rt req account reference id loc tr t); try done.
    + by rewrite Hsome.
    + rewrite Hsome. by apply (verifyCorrectLocation_next rt st last).
    + by rewrite Hsome.
  - destruct (response_transaction rt req account reference id tr resp t)
      as (_ & tr' & Hrun); try done.
    apply buildTransaction_returned in Hrun as (loc' & Hloc' & Hv & _).
    rewrite Hloc in Hloc'. injection Hloc' as <-.
    rewrite Hsome in Hv.
    by apply (verifyCorrectLocation_next rt st last loc Hlast) in Hv.
  - destruct (response_transaction rt req account reference id tr resp t)
      as (_ & tr' & Hrun); try done.
    apply buildTransaction_returned in Hrun as (loc' & Hloc' & _ & Ht).
    rewrite Hloc in Hloc'. injection Hloc' as <-.
    by rewrite Hsome in Ht.
Qed.

Lemma next_visit_only_at_following_index_witness :
  fst (handler online (checkin Sample.veteran "2") []) =
  Returned (found (checkin Sample.veteran "2") "U0k=") ∧
  fst (handler online (checkin Sample.veteran "3") []) =
  Returned (explained OutOfOrderVisit).
Proof.
  split.
  - pose proof (next_visit_only_at_following_index online
                  (checkin Sample.veteran "2") Sample.veteran
                  Sample.reference "2"
                  {| user := Sample.veteran; gameId_of := Sample.gameId;
                     lastLocation := Sample.K1 |}
                  {| index := 1; key := Sample.K1 |}
                  {| index := 2; key := Sample.K2 |} []) as H.
    destruct H as (_ & H & _).
    + repeat split; vm_compute; reflexivity.
    + vm_compute; reflexivity.
    + vm_compute; reflexivity.
    + vm_compute; reflexivity.
    + rewrite (H eq_refl "U0k="); [reflexivity|].
      eexists. split; [eexists; split; reflexivity|].
      eexists _, _, _. repeat split; vm_compute; reflexivity.
  - pose proof (next_visit_only_at_following_index online
                  (checkin Sample.veteran "3") Sample.veteran
                  Sample.reference "3"
                  {| user := Sample.veteran; gameId_of := Sample.gameId;
                     lastLocation := Sample.K1 |}
                  {| index := 1; key := Sample.K1 |}
                  {| index := 3; key := Sample.K3 |} []) as H.
    destruct H as (H & _).
    + repeat split; vm_compute; reflexivity.
    + vm_compute; reflexivity.
    + vm_compute; reflexivity.
    + vm_compute; reflexivity.
    + apply H. right. vm_compute. reflexivity.
Defined.

(** C3, as the code has it.  For a POST whose three parameters are
    present: the two validation failures are answered with status 200,
    their message and an empty transaction field.  Any other failure of the
    [try] block (a key that [new PublicKey] rejects; the blockhash fetch,
    an instruction builder, [partialSign] or [serialize] throwing), when
    the thrown value is neither [undefined] nor [null], is logged and
    answered the same way, with status 200 and the message of the thrown
    value, if that message is truthy, and with status 500 and the generic
    body if it is not.  The handler ends in no other way: it answers with
    the transaction, or one of these failures was thrown and logged. *)
Theorem failures_answered_by_message rt req tr :
  method req = Some "POST" → parameters_present req →
  (∀ account reference id,
     valid_post rt req account reference id →
     locationAtIndex rt (Number_valueOf rt id) = None →
     fst (handler rt req tr) =
     Returned {| status := 200;
                 json := JsObject
                   [("transaction", JsString "");
                    ("message", JsString "Invalid location id")] |}) ∧
  (∀ account reference id loc,
     valid_post rt req account reference id →
     locationAtIndex rt (Number_valueOf rt id) = Some loc →
     verifyCorrectLocation rt (fetched rt account) loc = false →
     fst (handler rt req tr) =
     Returned {| status := 200;
                 json := JsObject
                   [("transaction", JsString "");
                    ("message",
                     JsString "You must visit each location in order!")] |}) ∧
  (∀ e calls,
     post_fails rt req e calls →
     e ≠ ThrownUndefined → e ≠ ThrownNull →
     handler rt req tr =
     (Returned (if truthy (message e)
                then {| status := 200;
                        json := JsObject [("transaction", JsString "");
                                          ("message", message e)] |}
                else {| status := 500;
                        json := JsObject
                          [("error",
                            JsString "error creating transaction")] |}),
      tr ++ calls ++ [ConsoleLog e])) ∧
  ∃ out tr',
    handler rt req tr = (out, tr') ∧
    ((∃ t, out = Returned (found req t)) ∨
     (∃ e calls, post_fails rt req e calls ∧
                 tr' = tr ++ calls ++ [ConsoleLog e])).
Proof.
  intros Hm Hp. split; [|split; [|split]].
  - intros account reference id Hvalid Hloc.
    by rewrite (handler_invalid rt req account reference id).
  - intros account reference id loc Hvalid Hloc Hv.
    by rewrite (handler_out_of_order rt req account reference id loc).
  - intros e calls Hfails Hu Hn.
    rewrite (post_fails_run rt req e calls tr Hm Hp Hfails).
    destruct e as [| |m]; [done..|]. reflexivity.
  - destruct (handler_outcome rt req tr) as (out & evs & Hrun & Hout).
    exists out, (tr ++ evs). split; [done|].
    destruct Hout as [Hget | Hget Hpost | e Hpost Hd | Hpost Hbody Hmiss
                      | account reference id loc t Hvalid Hpassed Ht
                      | e calls Hpost Hpres Hfails].
    + congruence.
    + congruence.
    + exfalso. apply (destructure_unreadable req "account" e Hd).
      apply present_readable, Hp.
    + contradiction.
    + left. by exists t.
    + right. by exists e, calls.
Qed.

Lemma failures_answered_by_message_witness :
  handler offline (checkin Sample.newcomer "1") [] =
  (Returned (explained FetchFailed),
   [] ++ [RpcFetchUserState (userStatePDA offline Sample.newcomer);
          RpcGetLatestBlockhash] ++ [ConsoleLog FetchFailed]).
Proof.
  destruct (failures_answered_by_message offline
              (checkin Sample.newcomer "1") [])
    as (_ & _ & H & _).
  - vm_compute; reflexivity.
  - repeat split; vm_compute; reflexivity.
  - apply (H FetchFailed); [|discriminate..].
    apply (fails_build offline _ Sample.newcomer Sample.reference "1").
    + repeat split; vm_compute; reflexivity.
    + apply (fails_blockhash offline _ _ _ {| index := 1; key := Sample.K1 |}).
      * split; vm_compute; reflexivity.
      * reflexivity.
Defined.

(** Counterexample to C3 as the specification words it: with the RPC node
    out of reach the blockhash fetch throws an error that has a message, and
    the answer is status 200 with that message, not status 500. *)
Lemma network_failure_answered_with_200 :
  getLatestBlockhash offline = Threw FetchFailed ∧
  valid_post offline (checkin Sample.newcomer "1")
    Sample.newcomer Sample.reference "1" ∧
  fst (handler offline (checkin Sample.newcomer "1") []) =
  Returned {| status := 200;
              json := JsObject
                [("transaction", JsString "");
                 ("message",
                  JsString "failed to get recent blockhash: fetch failed")] |}
  ∧ fst (handler offline (checkin Sample.newcomer "1") []) ≠
    Returned {| status := 500;
                json := JsObject
                  [("error", JsString "error creating transaction")] |}.
Proof.
  split; [reflexivity|]. split; [repeat split; vm_compute; reflexivity|].
  split; [vm_compute; reflexivity|].
  vm_compute. discriminate.
Qed.

(** C4. A valid POST whose id resolves to no registered location is
    answered with the invalid-location message, whatever the state account
    answers; the only outside call before the answer is the state fetch, and
    the order of visits is never looked at. *)
Theorem unregistered_id_is_invalid rt req account reference id tr :
  valid_post rt req account reference id →
  locationAtIndex rt (Number_valueOf rt id) = None →
  ∀ fetch,
    handler (with_userState_fetch rt fetch) req tr =
    (Returned {| status := 200;
                 json := JsObject
                   [("transaction", JsString "");
                    ("message", JsString "Invalid location id")] |},
     tr ++ [RpcFetchUserState (userStatePDA rt account);
            ConsoleLog InvalidLocation]).
Proof.
  intros Hvalid Hloc fetch.
  by rewrite (handler_invalid (with_userState_fetch rt fetch)
                req account reference id).
Qed.

Lemma unregistered_id_is_invalid_witness :
  handler (with_userState_fetch online (fun _ => Threw FetchFailed))
          (checkin Sample.veteran "7") [] =
  (Returned (explained InvalidLocation),
   [] ++ [RpcFetchUserState (userStatePDA online Sample.veteran);
          ConsoleLog InvalidLocation]).
Proof.
  apply (unregistered_id_is_invalid online (checkin Sample.veteran "7")
           Sample.veteran Sample.reference "7" []).
  - repeat split; vm_compute; reflexivity.
  - vm_compute; reflexivity.
Defined.

(** C5, at the request the code misses.  A POST whose body is [null] has
    no account, yet it is not answered with status 400: destructuring the
    body throws before the parameters are checked and outside the [try]
    block, so the handler throws and no response is sent. *)
Lemma null_body_is_not_answered :
  handler online
    {| method := Some "POST";
       body := JsNull;
       query := {[ "reference" := QString (toBase58 Sample.reference) ]}
                ∪ {[ "id" := QString "1" ]} |} [] =
  (Threw (ThrownValue (JsString
     "Cannot destructure property 'account' of 'req.body' as it is null.")),
   []).
Proof. vm_compute. reflexivity. Qed.

(** C6. When a POST is answered with a transaction, the string is the
    base64 text of a transaction whose fee payer is the account of the
    request, signed with [partialSign] by the organizer key of the process
    and serialized with [requireAllSignatures] set to [false]. *)
Theorem answered_transaction_is_signed_base64 rt req tr resp t :
  method req = Some "POST" →
  fst (handler rt req tr) = Returned resp →
  transaction_field resp = Some t → t ≠ "" →
  ∃ account tx signed bytes,
    PublicKey_new rt (body_prop req "account") = Returned account ∧
    feePayer tx = Some account ∧
    partialSign rt tx (eventOrganizer rt) = Returned signed ∧
    serialize rt {| requireAllSignatures := Some false;
                    verifySignatures := None |} signed = Returned bytes ∧
    t = Base64.encode bytes.
Proof.
  intros Hm Hresp Hfield Hne.
  destruct (post_transaction_inv rt req tr resp t)
    as (account & reference & id & loc & Hvalid & _ & _ & Ht & _); try done.
  apply transaction_for_assembled in Ht
    as (ixs & checkIx & (latest & signed & bytes & _ & Hs & Hb & ->) & _).
  destruct Hvalid as (_ & _ & _ & _ & Hka & _).
  eexists account, _, signed, bytes. split; [done|].
  split; [|split; [exact Hs|split; [exact Hb|reflexivity]]].
  reflexivity.
Qed.

Lemma answered_transaction_is_signed_base64_witness :
  ∃ account tx signed bytes,
    PublicKey_new online
      (body_prop (checkin Sample.newcomer "1") "account") = Returned account ∧
    feePayer tx = Some account ∧
    partialSign online tx (eventOrganizer online) = Returned signed ∧
    serialize online {| requireAllSignatures := Some false;
                        verifySignatures := None |} signed = Returned bytes ∧
    "U0lJ" = Base64.encode bytes.
Proof.
  apply (answered_transaction_is_signed_base64 online
           (checkin Sample.newcomer "1") []
           (found (checkin Sample.newcomer "1") "U0lJ") "U0lJ").
  - reflexivity.
  - vm_compute; reflexivity.
  - vm_compute; reflexivity.
  - discriminate.
Defined.

(** C7. The check-in instruction the handler builds is the one of the
    program client with the reference key appended to its keys as a
    non-signer, non-writable entry; every transaction the handler answers
    with ends with such an instruction. *)
Theorem reference_key_is_readonly_nonsigner rt :
  (∀ account reference loc tr ix tr',
     createCheckInInstruction rt account reference loc tr
       = (Returned ix, tr') →
     ∃ built,
       methods_checkIn rt (gameId rt) (key loc) account
                       (publicKey (eventOrganizer rt)) = Returned built ∧
       keys ix = keys built ++ [ {| pubkey := reference;
                                    isSigner := false;
                                    isWritable := false |} ]) ∧
  (∀ req tr resp t,
     method req = Some "POST" →
     fst (handler rt req tr) = Returned resp →
     transaction_field resp = Some t → t ≠ "" →
     ∃ reference tx checkIx signed bytes,
       PublicKey_new rt (query_js (query req !! "reference"))
         = Returned reference ∧
       last (instructions tx) = Some checkIx ∧
       last (keys checkIx) = Some {| pubkey := reference;
                                     isSigner := false;
                                     isWritable := false |} ∧
       partialSign rt tx (eventOrganizer rt) = Returned signed ∧
       serialize rt serializeConfig signed = Returned bytes ∧
       t = Base64.encode bytes).
Proof.
  split.
  - intros account reference loc tr ix tr' H.
    unfold createCheckInInstruction, bind, call, ret in H.
    destruct (methods_checkIn rt _ _ _ _) as [built|]; [|discriminate].
    injection H as <- _. by exists built.
  - intros req tr resp t Hm Hresp Hfield Hne.
    destruct (post_transaction_inv rt req tr resp t)
      as (account & reference & id & loc & Hvalid & _ & _ & Ht & _); try done.
    apply transaction_for_assembled in Ht
      as (ixs & checkIx & (latest & signed & bytes & _ & Hs & Hb & ->)
          & Hlast & built & _ & ->).
    destruct Hvalid as (_ & _ & _ & _ & _ & Hkr & _).
    eexists reference, _, _, signed, bytes. split; [done|].
    split; [|split; [|split; [exact Hs|split; [exact Hb|reflexivity]]]].
    + exact Hlast.
    + simpl. apply last_snoc.
Qed.

Lemma reference_key_is_readonly_nonsigner_witness :
  ∃ built,
    methods_checkIn online (gameId online) Sample.K1 Sample.newcomer
                    (publicKey (eventOrganizer online)) = Returned built ∧
    keys (keys_push built (referenceMeta Sample.reference)) =
    keys built ++ [ {| pubkey := Sample.reference;
                       isSigner := false; isWritable := false |} ].
Proof.
  destruct (reference_key_is_readonly_nonsigner online) as (H & _).
  destruct (H Sample.newcomer Sample.reference
              {| index := 1; key := Sample.K1 |} []
              (keys_push
                 {| keys :=
                      [ {| pubkey := userStatePDA online Sample.newcomer;
                           isSigner := false; isWritable := true |};
                        {| pubkey := Sample.newcomer;
                           isSigner := true; isWritable := true |};
                        {| pubkey := publicKey Sample.organizer;
                           isSigner := true; isWritable := false |} ];
                    programId := Sample.huntProgram;
                    data := [x01] |}
                 (referenceMeta Sample.reference))
              [ProgramCheckIn Sample.gameId Sample.K1 Sample.newcomer
                              (publicKey Sample.organizer)]
              eq_refl) as (built & Hb & Hk).
  exists built. split; [exact Hb|].
  injection Hb as <-. reflexivity.
Defined.

(** C8. A GET is answered with status 200 and the fixed label and icon,
    whatever the body and the query hold, and makes no outside call; a
    request of any method other than GET and POST is answered with status
    405 and the method-not-allowed body. *)
Theorem get_is_fixed_and_others_405 rt :
  (∀ body query tr,
     handler rt {| method := Some "GET"; body := body; query := query |} tr =
     (Returned
        {| status := 200;
           json := JsObject
             [("label", JsString "Scavenger Hunt!");
              ("icon",
               JsString
                 "https://solana.com/src/img/branding/solanaLogoMark.svg")]
        |}, tr)) ∧
  (∀ req tr,
     method req ≠ Some "GET" → method req ≠ Some "POST" →
     handler rt req tr =
     (Returned {| status := 405;
                  json := JsObject [("error", JsString "Method not allowed")]
               |}, tr)).
Proof.
  split; [reflexivity|].
  intros req tr Hget Hpost. unfold handler, method_is.
  destruct (method req) as [m|]; [|reflexivity].
  destruct (String.eqb_spec m "GET") as [->|_]; [done|].
  destruct (String.eqb_spec m "POST") as [->|_]; [done|].
  reflexivity.
Qed.

Lemma get_is_fixed_and_others_405_witness :
  handler online
    (request "DELETE" (Some Sample.newcomer)
             (Some (toBase58 Sample.reference)) (Some "1")) [] =
  (Returned MethodNotAllowed, []).
Proof.
  destruct (get_is_fixed_and_others_405 online) as (_ & H).
  apply H; discriminate.
Defined.

(** C9. When the fetch of the state account throws, whatever it throws,
    [fetchUserState] returns [null]; a valid request is then answered as if
    the fetch had thrown anything else (so, as for a player whose account
    does not exist): it is checked against index 1, gets the initialize and
    check-in transaction there, and is answered with status 500 only if
    another collaborator threw a value without a truthy message. *)
Theorem state_fetch_failure_reads_as_no_state rt account e :
  userState_fetch rt (userStatePDA rt account) = Threw e →
  (∀ tr,
     fetchUserState rt account tr =
     (Returned None, tr ++ [RpcFetchUserState (userStatePDA rt account)])) ∧
  (∀ req reference id tr,
     valid_post rt req account reference id →
     (∀ e', handler (with_userState_fetch rt (λ _, Threw e')) req tr
            = handler rt req tr) ∧
     (∀ loc, locationAtIndex rt (Number_valueOf rt id) = Some loc →
             index loc ≠ 1 →
             fst (handler rt req tr) = Returned (explained OutOfOrderVisit)) ∧
     (∀ loc t, locationAtIndex rt (Number_valueOf rt id) = Some loc →
               index loc = 1 →
               initialize_and_checkIn rt account reference loc t →
               fst (handler rt req tr) = Returned (found req t)) ∧
     (∀ resp, fst (handler rt req tr) = Returned resp → status resp = 500 →
              ∃ e', collaborator_threw rt e' ∧ truthy (message e') = false)).
Proof.
  intros Hthrew.
  assert (fetched rt account = None) as Hnone.
  { unfold fetched. by rewrite Hthrew. }
  split.
  - intros tr. by rewrite fetchUserState_run, Hnone.
  - intros req reference id tr Hvalid. repeat split.
    + intros e'. apply (handler_fetch rt _ req account reference id tr Hvalid).
      by rewrite Hnone.
    + intros loc Hloc Hne.
      rewrite (handler_out_of_order rt req account reference id loc);
        try done.
      rewrite Hnone. simpl. by apply Z.eqb_neq.
    + intros loc t Hloc Hone Ht.
      rewrite (handler_found rt req account reference id loc tr t); try done.
      * rewrite Hnone. by apply verifyCorrectLocation_first.
      * by rewrite Hnone.
    + intros resp Hresp Hstatus.
      by apply (status_500_inv rt req account reference id tr resp).
Qed.

Lemma state_fetch_failure_reads_as_no_state_witness :
  fetchUserState offline Sample.veteran [] =
  (Returned None, [] ++ [RpcFetchUserState (userStatePDA offline Sample.veteran)]).
Proof.
  destruct (state_fetch_failure_reads_as_no_state offline Sample.veteran
              FetchFailed eq_refl) as (H & _).
  apply H.
Defined.

(** C10. A POST whose three parameters are present and whose account or
    reference is refused by [new PublicKey] with an error that has a truthy
    message is answered with status 200, an empty transaction field and
    that message (neither the 400 nor the 500 answer), before any outside
    call. *)
Theorem rejected_key_is_answered_with_its_message rt req e tr :
  method req = Some "POST" → parameters_present req →
  key_rejected rt req e → truthy (message e) = true →
  handler rt req tr =
  (Returned {| status := 200;
               json := JsObject [("transaction", JsString "");
                                 ("message", message e)] |},
   tr ++ [ConsoleLog e]).
Proof.
  intros Hm Hp Hk Hmsg. rewrite handler_post by done.
  rewrite (post_key_rejected rt req e tr Hp Hk).
  rewrite (catch_block_truthy e Hmsg). unfold caught. by rewrite Hmsg.
Qed.

Lemma rejected_key_is_answered_with_its_message_witness :
  handler online
    (request "POST" (Some {| toBase58 := "not a key" |})
             (Some (toBase58 Sample.reference)) (Some "1")) [] =
  (Returned
     {| status := 200;
        json := JsObject [("transaction", JsString "");
                          ("message", JsString "Invalid public key input")] |},
   [ConsoleLog (ThrownValue (JsString "Invalid public key input"))]).
Proof.
  apply (rejected_key_is_answered_with_its_message online
           (request "POST" (Some {| toBase58 := "not a key" |})
                    (Some (toBase58 Sample.reference)) (Some "1"))
           (ThrownValue (JsString "Invalid public key input")) []).
  - reflexivity.
  - repeat split; vm_compute; reflexivity.
  - left. vm_compute. reflexivity.
  - reflexivity.
Defined.

(** ** The order of visits *)

Section Order.

Variable rt : Runtime.

(** With distinct keys in the registry, the location a key names is the
    one the search of [verifyCorrectLocation] finds. *)
Lemma standing_at_registered st here :
  NoDup (map (λ l, toBase58 (key l)) (locations rt)) →
  here ∈ locations rt →
  lastLocation st = key here →
  standing_at rt st = Some here.
Proof.
  unfold standing_at, PublicKey_toString. intros Hnodup Hin ->.
  induction (locations rt) as [|l ls IH]; [by apply elem_of_nil in Hin|].
  simpl in *. apply NoDup_cons in Hnodup as (Hnotin & Hnodup).
  apply elem_of_cons in Hin as [<- | Hin].
  - by rewrite String.eqb_refl.
  - destruct (String.eqb_spec (toBase58 (key l)) (toBase58 (key here)))
      as [Heq|_]; [|by apply IH].
    exfalso. apply Hnotin. rewrite Heq.
    apply list_elem_of_fmap. by exists here.
Qed.

End Order.

(** ** The menu *)

(** The menu links the home page, then one page for each location of the
    registry, in the order of the registry. *)
Lemma links_Navbar locs :
  links (Navbar locs) =
  "/" :: map (λ z, "/location/" +:+ pretty z) (map index locs).
Proof.
  unfold Navbar. simpl. rewrite app_nil_r. f_equal.
  induction locs as [|l ls IH]; simpl.
  - done.
  - by rewrite IH.
Qed.

(** ** The base64 text *)

Lemma land_63_lt n : (N.land n 63 < 64)%N.
Proof.
  change 63%N with (N.ones 6). rewrite N.land_ones. apply N.mod_lt. done.
Qed.

Lemma digit_value_digit n : digit_value (Base64.digit n) = N.land n 63.
Proof.
  unfold Base64.digit. pose proof (land_63_lt n) as H.
  generalize dependent (N.land n 63). intros k Hk.
  assert (N.to_nat k < 64)%nat as Hk' by lia.
  rewrite <- (N2Nat.id k). generalize dependent (N.to_nat k). clear.
  intros m Hm. rewrite Nat2N.id.
  do 64 (destruct m as [|m]; [vm_compute; reflexivity|]). lia.
Qed.

Lemma digit_not_pad n : Base64.digit n ≠ "="%char.
Proof.
  intros H. pose proof (digit_value_digit n) as Hv. rewrite H in Hv.
  pose proof (land_63_lt n).
  change (digit_value "="%char) with 64%N in Hv. lia.
Qed.

Lemma digit_inj n m :
  Base64.digit n = Base64.digit m → N.land n 63 = N.land m 63.
Proof. intros H. by rewrite <- !digit_value_digit, H. Qed.


Section Chunks.

Local Open Scope N_scope.
Local Notation "x >> k" := (N.shiftr x k) (at level 35).
Local Notation "x << k" := (N.shiftl x k) (at level 35).

(** The six-bit groups of a chunk, byte by byte. *)
Lemma leaves x :
  let X := Byte.to_N x in
  (N.land ((X << 16) >> 18) 63 = X >> 2 ∧
   N.land ((X << 16) >> 12) 63 = (N.land X 3) << 4 ∧
   N.land ((X << 16) >> 6) 63 = 0 ∧
   N.land (X << 16) 63 = 0) ∧
  (N.land ((X << 8) >> 18) 63 = 0 ∧
   N.land ((X << 8) >> 12) 63 = X >> 4 ∧
   N.land ((X << 8) >> 6) 63 = (N.land X 15) << 2 ∧
   N.land (X << 8) 63 = 0) ∧
  (N.land (X >> 18) 63 = 0 ∧
   N.land (X >> 12) 63 = 0 ∧
   N.land (X >> 6) 63 = X >> 6).
Proof. destruct x; vm_compute; repeat split; reflexivity. Qed.

Lemma groups a b c :
  let A := Byte.to_N a in
  let B := Byte.to_N b in
  let C := Byte.to_N c in
  let n := N.lor (N.lor (A << 16) (B << 8)) C in
  N.land (n >> 18) 63 = A >> 2 ∧
  N.land (n >> 12) 63 = N.lor ((N.land A 3) << 4) (B >> 4) ∧
  N.land (n >> 6) 63 = N.lor ((N.land B 15) << 2) (C >> 6) ∧
  N.land n 63 = N.land C 63.
Proof.
  intros A B C n. subst n.
  destruct (leaves a) as ((a18 & a12 & a6 & a0) & _).
  destruct (leaves b) as (_ & (b18 & b12 & b6 & b0) & _).
  destruct (leaves c) as (_ & _ & (c18 & c12 & c6)).
  fold A in a18, a12, a6, a0. fold B in b18, b12, b6, b0.
  fold C in c18, c12, c6.
  rewrite !N.shiftr_lor, !N.land_lor_distr_l.
  rewrite a18, a12, a6, a0, b18, b12, b6, b0, c18, c12, c6.
  rewrite !N.lor_0_r, !N.lor_0_l. done.
Qed.

(** The masks that take a group apart, and the bytes put together again. *)
Lemma masks x y :
  let X := Byte.to_N x in
  let Y := Byte.to_N y in
  N.land (N.lor ((N.land X 3) << 4) (Y >> 4)) 48 = (N.land X 3) << 4 ∧
  N.land (N.lor ((N.land X 3) << 4) (Y >> 4)) 15 = Y >> 4 ∧
  N.land (N.lor ((N.land X 15) << 2) (Y >> 6)) 60 = (N.land X 15) << 2 ∧
  N.land (N.lor ((N.land X 15) << 2) (Y >> 6)) 3 = Y >> 6.
Proof.
  intros X Y. rewrite !N.land_lor_distr_l.
  assert (N.land ((N.land X 3) << 4) 48 = (N.land X 3) << 4 ∧
          N.land ((N.land X 3) << 4) 15 = 0 ∧
          N.land ((N.land X 15) << 2) 60 = (N.land X 15) << 2 ∧
          N.land ((N.land X 15) << 2) 3 = 0) as (x1 & x2 & x3 & x4).
  { subst X. destruct x; vm_compute; repeat split; reflexivity. }
  assert (N.land (Y >> 4) 48 = 0 ∧ N.land (Y >> 4) 15 = Y >> 4 ∧
          N.land (Y >> 6) 60 = 0 ∧ N.land (Y >> 6) 3 = Y >> 6)
    as (y1 & y2 & y3 & y4).
  { subst Y. destruct y; vm_compute; repeat split; reflexivity. }
  rewrite x1, x2, x3, x4, y1, y2, y3, y4.
  rewrite !N.lor_0_r, !N.lor_0_l. done.
Qed.

Lemma rebuilt x :
  let X := Byte.to_N x in
  X = N.lor ((X >> 2) << 2) (((N.land X 3) << 4) >> 4) ∧
  X = N.lor ((X >> 4) << 4) (((N.land X 15) << 2) >> 2) ∧
  X = N.lor ((X >> 6) << 6) (N.land X 63).
Proof. destruct x; vm_compute; repeat split; reflexivity. Qed.

Lemma byte_to_N_inj x y : Byte.to_N x = Byte.to_N y → x = y.
Proof.
  intros H. apply (f_equal Byte.of_N) in H.
  rewrite !Byte.of_to_N in H. congruence.
Qed.

Lemma groups_2 a b :
  let A := Byte.to_N a in
  let B := Byte.to_N b in
  let n := N.lor (A << 16) (B << 8) in
  N.land (n >> 18) 63 = A >> 2 ∧
  N.land (n >> 12) 63 = N.lor ((N.land A 3) << 4) (B >> 4) ∧
  N.land (n >> 6) 63 = (N.land B 15) << 2.
Proof.
  intros A B n. subst n.
  destruct (leaves a) as ((a18 & a12 & a6 & a0) & _).
  destruct (leaves b) as (_ & (b18 & b12 & b6 & b0) & _).
  fold A in a18, a12, a6, a0. fold B in b18, b12, b6, b0.
  rewrite !N.shiftr_lor, !N.land_lor_distr_l.
  rewrite a18, a12, a6, b18, b12, b6.
  rewrite !N.lor_0_r, !N.lor_0_l. done.
Qed.

Lemma groups_1 a :
  let A := Byte.to_N a in
  let n := A << 16 in
  N.land (n >> 18) 63 = A >> 2 ∧
  N.land (n >> 12) 63 = (N.land A 3) << 4.
Proof.
  intros A n. subst n.
  destruct (leaves a) as ((a18 & a12 & a6 & a0) & _). done.
Qed.

(** A byte is known from its two halves in neighbouring groups. *)
Lemma first_byte a a' :
  Byte.to_N a >> 2 = Byte.to_N a' >> 2 →
  (N.land (Byte.to_N a) 3) << 4 = (N.land (Byte.to_N a') 3) << 4 →
  a = a'.
Proof.
  intros H1 H2. apply byte_to_N_inj.
  destruct (rebuilt a) as (-> & _). destruct (rebuilt a') as (-> & _).
  by rewrite H1, H2.
Qed.

Lemma second_byte b b' :
  Byte.to_N b >> 4 = Byte.to_N b' >> 4 →
  (N.land (Byte.to_N b) 15) << 2 = (N.land (Byte.to_N b') 15) << 2 →
  b = b'.
Proof.
  intros H1 H2. apply byte_to_N_inj.
  destruct (rebuilt b) as (_ & -> & _). destruct (rebuilt b') as (_ & -> & _).
  by rewrite H1, H2.
Qed.

Lemma third_byte c c' :
  Byte.to_N c >> 6 = Byte.to_N c' >> 6 →
  N.land (Byte.to_N c) 63 = N.land (Byte.to_N c') 63 →
  c = c'.
Proof.
  intros H1 H2. apply byte_to_N_inj.
  destruct (rebuilt c) as (_ & _ & ->). destruct (rebuilt c') as (_ & _ & ->).
  by rewrite H1, H2.
Qed.

Lemma split_second a b a' b' :
  N.lor ((N.land (Byte.to_N a) 3) << 4) (Byte.to_N b >> 4) =
  N.lor ((N.land (Byte.to_N a') 3) << 4) (Byte.to_N b' >> 4) →
  (N.land (Byte.to_N a) 3) << 4 = (N.land (Byte.to_N a') 3) << 4 ∧
  Byte.to_N b >> 4 = Byte.to_N b' >> 4.
Proof.
  intros H. destruct (masks a b) as (m1 & m2 & _).
  destruct (masks a' b') as (m1' & m2' & _).
  split.
  - rewrite <- m1, <- m1'. by rewrite H.
  - rewrite <- m2, <- m2'. by rewrite H.
Qed.

Lemma split_third b c b' c' :
  N.lor ((N.land (Byte.to_N b) 15) << 2) (Byte.to_N c >> 6) =
  N.lor ((N.land (Byte.to_N b') 15) << 2) (Byte.to_N c' >> 6) →
  (N.land (Byte.to_N b) 15) << 2 = (N.land (Byte.to_N b') 15) << 2 ∧
  Byte.to_N c >> 6 = Byte.to_N c' >> 6.
Proof.
  intros H. destruct (masks b c) as (_ & _ & m3 & m4).
  destruct (masks b' c') as (_ & _ & m3' & m4').
  split.
  - rewrite <- m3, <- m3'. by rewrite H.
  - rewrite <- m4, <- m4'. by rewrite H.
Qed.

End Chunks.

Lemma encode_1 a :
  Base64.encode [a] =
  let n := N.shiftl (Byte.to_N a) 16 in
  String (Base64.digit (N.shiftr n 18))
    (String (Base64.digit (N.shiftr n 12)) "==").
Proof. reflexivity. Qed.

Lemma encode_2 a b :
  Base64.encode [a; b] =
  let n := N.lor (N.shiftl (Byte.to_N a) 16) (N.shiftl (Byte.to_N b) 8) in
  String (Base64.digit (N.shiftr n 18))
    (String (Base64.digit (N.shiftr n 12))
       (String (Base64.digit (N.shiftr n 6)) "=")).
Proof. reflexivity. Qed.

Lemma encode_3 a b c rest :
  Base64.encode (a :: b :: c :: rest) =
  let n := N.lor (N.lor (N.shiftl (Byte.to_N a) 16)
                        (N.shiftl (Byte.to_N b) 8)) (Byte.to_N c) in
  String (Base64.digit (N.shiftr n 18))
    (String (Base64.digit (N.shiftr n 12))
       (String (Base64.digit (N.shiftr n 6))
          (String (Base64.digit n) (Base64.encode rest)))).
Proof. reflexivity. Qed.

Ltac pad_clash :=
  match goal with
  | H : Base64.digit _ = "="%char |- _ => by apply digit_not_pad in H
  | H : "="%char = Base64.digit _ |- _ =>
      symmetry in H; by apply digit_not_pad in H
  end.

Lemma encode_length bs :
  String.length (Base64.encode bs) = (4 * ((length bs + 2) / 3))%nat.
Proof.
  revert bs. fix IH 1. intros [|a [|b [|c rest]]]; try reflexivity.
  rewrite encode_3. cbv zeta. cbn [String.length]. rewrite IH.
  change (length (a :: b :: c :: rest) + 2)%nat
    with (S (S (S (length rest + 2)))).
  replace (S (S (S (length rest + 2))))
    with (length rest + 2 + 1 * 3)%nat by lia.
  rewrite Nat.div_add by lia. lia.
Qed.

Lemma encode_alphabet bs :
  Forall (λ ch, (digit_value ch < 64)%N ∨ ch = "="%char)
         (list_ascii_of_string (Base64.encode bs)).
Proof.
  assert (∀ n, (digit_value (Base64.digit n) < 64)%N) as Hdigit.
  { intros n. rewrite digit_value_digit. apply land_63_lt. }
  revert bs. fix IH 1. intros [|a [|b [|c rest]]].
  - constructor.
  - rewrite encode_1. cbv zeta. simpl.
    do 2 (constructor; [left; apply Hdigit|]).
    do 2 (constructor; [by right|]). constructor.
  - rewrite encode_2. cbv zeta. simpl.
    do 3 (constructor; [left; apply Hdigit|]).
    constructor; [by right|]. constructor.
  - rewrite encode_3. cbv zeta. simpl.
    do 4 (constructor; [left; apply Hdigit|]). apply IH.
Qed.

(** ** Further properties of the endpoint *)

Local Set Warnings "-clear-no-such-hyp".



(** X2. The status tells the rejection: 405 is the answer exactly to the
    methods other than GET and POST, and 400 exactly to a POST one of whose
    parameters is falsy, which covers a parameter that is present but
    empty. *)
Theorem status_tells_the_rejection rt req tr resp :
  fst (handler rt req tr) = Returned resp →
  (status resp = 405 ↔
   method req ≠ Some "GET" ∧ method req ≠ Some "POST") ∧
  (status resp = 400 ↔
   method req = Some "POST" ∧
   (truthy (body_prop req "account") = false
    ∨ truthy (query_js (query req !! "reference")) = false
    ∨ truthy (query_js (query req !! "id")) = false)).
Proof.
  intros Hresp.
  destruct (handler_outcome rt req tr) as (out & evs & Hrun & Hout).
  rewrite Hrun in Hresp. simpl in Hresp. subst out.
  assert (∀ e, status (caught e) ≠ 405 ∧ status (caught e) ≠ 400) as Hcaught.
  { intros e. unfold caught. destruct (truthy (message e)); done. }
  assert (parameters_present req →
          ¬ (truthy (body_prop req "account") = false
             ∨ truthy (query_js (query req !! "reference")) = false
             ∨ truthy (query_js (query req !! "id")) = false)) as Hpres.
  { intros (Ha & Hr & Hi) [H | [H | H]]; congruence. }
  inversion Hout as [Hm | Hg Hp | e Hm Hd | Hm Hbody Hp
                     | account reference id loc t Hvalid _ _
                     | e calls Hm Hp Hfails]; subst.
  - split; split.
    + discriminate.
    + intros (H & _). contradiction.
    + discriminate.
    + intros (H & _). congruence.
  - split; split.
    + done.
    + done.
    + discriminate.
    + intros (H & _). contradiction.
  - split; split.
    + discriminate.
    + intros (_ & H). contradiction.
    + intros _. split; [done|]. unfold parameters_present in Hp.
      destruct (truthy (body_prop req "account"));
        destruct (truthy (query_js (query req !! "reference")));
        destruct (truthy (query_js (query req !! "id"))); auto.
      exfalso. apply Hp. done.
    + done.
  - destruct Hvalid as (Hm & Ha & Hr & Hi & _). split; split.
    + discriminate.
    + intros (_ & H). contradiction.
    + discriminate.
    + intros (_ & H). by apply (Hpres (conj Ha (conj Hr Hi))) in H.
  - match goal with
    | H : catch_block e = Returned resp |- _ =>
        apply catch_block_returned in H as ->
    end.
    destruct (Hcaught e) as (H405 & H400). split; split.
    + done.
    + intros (_ & H). contradiction.
    + done.
    + intros (_ & H). by apply Hpres in H.
Qed.

Lemma status_tells_the_rejection_witness :
  status MissingParameters = 400 ↔
  method (request "POST" (Some Sample.newcomer)
                  (Some (toBase58 Sample.reference)) (Some "")) = Some "POST" ∧
  (truthy (body_prop (request "POST" (Some Sample.newcomer)
                        (Some (toBase58 Sample.reference)) (Some ""))
                     "account") = false
   ∨ truthy (query_js (query (request "POST" (Some Sample.newcomer)
                                (Some (toBase58 Sample.reference)) (Some ""))
                       !! "reference")) = false
   ∨ truthy (query_js (query (request "POST" (Some Sample.newcomer)
                                (Some (toBase58 Sample.reference)) (Some ""))
                       !! "id")) = false).
Proof.
  apply (status_tells_the_rejection online
           (request "POST" (Some Sample.newcomer)
                    (Some (toBase58 Sample.reference)) (Some "")) []
           MissingParameters).
  vm_compute. reflexivity.
Defined.

(** X3. The outside calls of a request are the first of the calls the
    request can lead to, made in that order and each at most once: the
    fetch of the state of the account of the request, the blockhash fetch,
    the initialize instruction (only when the fetch gave no state), the
    check-in instruction for the location the id names.  Nothing is
    retried.  The only event that can follow them is one line of log, and
    what is logged is the value the [try] block threw after exactly these
    calls, which is the value the [catch] block then answers. *)
Theorem outside_calls_in_fixed_order rt req tr out tr' :
  handler rt req tr = (out, tr') →
  ∃ calls,
    calls `prefix_of` request_calls rt req ∧
    (tr' = tr ++ calls ∨
     ∃ e, post_fails rt req e calls ∧ out = catch_block e ∧
          tr' = tr ++ calls ++ [ConsoleLog e]).
Proof.
  intros Hout.
  destruct (handler_outcome rt req tr) as (out' & evs & Hrun & Hcase).
  rewrite Hrun in Hout. injection Hout as <- <-.
  destruct Hcase as [Hget | Hget Hpost | e Hpost Hd | Hpost _ Hmiss
                     | account reference id loc t Hvalid (Hloc & Hv) Ht
                     | e calls Hpost Hpres Hfails].
  1-4: exists []; split; [apply prefix_nil | left; by rewrite app_nil_r].
  - exists (calls_made rt account loc (fetched rt account)).
    split; [|by left].
    rewrite (request_calls_valid rt _ _ _ _ Hvalid), Hloc. done.
  - exists calls. split; [by eapply post_fails_prefix|].
    right. by exists e.
Qed.

Lemma outside_calls_in_fixed_order_witness :
  ∃ calls,
    calls `prefix_of` request_calls online (checkin Sample.veteran "3") ∧
    ([RpcFetchUserState (userStatePDA online Sample.veteran);
      ConsoleLog OutOfOrderVisit] = [] ++ calls
     ∨ ∃ e, post_fails online (checkin Sample.veteran "3") e calls ∧
            Returned (explained OutOfOrderVisit) = catch_block e ∧
            [RpcFetchUserState (userStatePDA online Sample.veteran);
             ConsoleLog OutOfOrderVisit] = [] ++ calls ++ [ConsoleLog e]).
Proof.
  apply (outside_calls_in_fixed_order online (checkin Sample.veteran "3") []
           (Returned (explained OutOfOrderVisit))).
  vm_compute. reflexivity.
Defined.

(** X4. The blockhash is fetched, and the program client is asked for an
    instruction, only for a valid request that passed both checks; the
    initialize instruction is asked for only when the player has no state,
    and only for the game and the account of the request. *)
Theorem calls_beyond_the_state_fetch_are_earned rt req tr out evs :
  handler rt req tr = (out, tr ++ evs) →
  (RpcGetLatestBlockhash ∈ evs
   ∨ (∃ game player, ProgramInitialize game player ∈ evs)
   ∨ (∃ game k player organizer,
        ProgramCheckIn game k player organizer ∈ evs) →
   ∃ account reference id loc,
     valid_post rt req account reference id ∧ passed rt account id loc) ∧
  (∀ game player,
     ProgramInitialize game player ∈ evs →
     ∃ account reference id,
       valid_post rt req account reference id ∧
       fetched rt account = None ∧
       game = gameId rt ∧ player = account).
Proof.
  intros Hout.
  destruct (handler_outcome rt req tr) as (out' & evs' & Hrun & Hcase).
  rewrite Hrun in Hout. injection Hout as _ Hevs.
  apply app_inv_head in Hevs as ->.
  assert (∀ account loc game player,
            ProgramInitialize game player
              ∈ calls_made rt account loc (fetched rt account) →
            fetched rt account = None ∧
            game = gameId rt ∧ player = account) as Hinit.
  { intros account loc game player. unfold calls_made.
    destruct (fetched rt account); simpl.
    - rewrite !elem_of_cons, elem_of_nil. naive_solver.
    - rewrite !elem_of_cons, elem_of_nil. naive_solver. }
  destruct Hcase as [Hget | Hget Hpost | e Hpost Hd | Hpost _ Hmiss
                     | account reference id loc t Hvalid Hpassed Ht
                     | e calls Hpost Hpres Hfails].
  1-4: split; [intros [Hin | [(? & ? & Hin) | (? & ? & ? & ? & Hin)]]
              | intros ? ? Hin]; by apply elem_of_nil in Hin.
  - split; [by eauto 10|].
    intros game player Hin. apply Hinit in Hin. naive_solver.
  - destruct Hfails as [e Hk | account reference id e calls Hvalid Hbuild].
    { split; [intros [Hin | [(? & ? & Hin) | (? & ? & ? & ? & Hin)]]
             | intros ? ? Hin];
        apply list_elem_of_singleton in Hin; discriminate. }
    destruct Hbuild as [Hloc | loc Hloc Hv | loc e Hpassed Hl
          | loc latest e Hpassed Hl Hnone Hi
          | loc latest e Hpassed Hl Hinit' Hc
          | loc latest ixs e Hpassed Hl Hixs Hs
          | loc latest ixs signed e Hpassed Hl Hixs Hs Hb].
    1-2: split; [intros [Hin | [(? & ? & Hin) | (? & ? & ? & ? & Hin)]]
                | intros ? ? Hin];
         rewrite !elem_of_app, !elem_of_cons, !elem_of_nil in Hin;
         naive_solver.
    + split; [by eauto 10|]. intros game player Hin.
      rewrite !elem_of_app, !elem_of_cons, !elem_of_nil in Hin. naive_solver.
    + split; [by eauto 10|]. intros game player Hin.
      rewrite !elem_of_app, !elem_of_cons, !elem_of_nil in Hin. naive_solver.
    + split; [by eauto 10|]. intros game player Hin.
      rewrite elem_of_app in Hin. destruct Hin as [Hin | Hin].
      * apply Hinit in Hin. naive_solver.
      * apply list_elem_of_singleton in Hin. discriminate.
    + split; [by eauto 10|]. intros game player Hin.
      rewrite elem_of_app in Hin. destruct Hin as [Hin | Hin].
      * apply Hinit in Hin. naive_solver.
      * apply list_elem_of_singleton in Hin. discriminate.
    + split; [by eauto 10|]. intros game player Hin.
      rewrite elem_of_app in Hin. destruct Hin as [Hin | Hin].
      * apply Hinit in Hin. naive_solver.
      * apply list_elem_of_singleton in Hin. discriminate.
Qed.

Lemma calls_beyond_the_state_fetch_are_earned_witness :
  ∃ account reference id,
    valid_post online (checkin Sample.newcomer "1") account reference id ∧
    fetched online account = None ∧
    Sample.gameId = gameId online ∧ Sample.newcomer = account.
Proof.
  destruct (calls_beyond_the_state_fetch_are_earned online
              (checkin Sample.newcomer "1") []
              (Returned (found (checkin Sample.newcomer "1") "U0lJ"))
              (calls_made online Sample.newcomer
                 {| index := 1; key := Sample.K1 |} None)) as (_ & H).
  - vm_compute. reflexivity.
  - apply (H Sample.gameId Sample.newcomer).
    apply list_elem_of_further, list_elem_of_further, list_elem_of_here.
Defined.

(** X5. A player whose recorded last location is not a key of the registry
    is locked out: every registered id is answered with the out-of-order
    message, after the state fetch alone. *)
Theorem unknown_last_location_locks_out
    rt req account reference id st loc tr :
  valid_post rt req account reference id →
  fetched rt account = Some st →
  standing_at rt st = None →
  locationAtIndex rt (Number_valueOf rt id) = Some loc →
  handler rt req tr =
  (Returned {| status := 200;
               json := JsObject
                 [("transaction", JsString "");
                  ("message",
                   JsString "You must visit each location in order!")] |},
   tr ++ [RpcFetchUserState (userStatePDA rt account);
          ConsoleLog OutOfOrderVisit]).
Proof.
  intros Hvalid Hst Hlost Hloc.
  rewrite (handler_out_of_order rt req account reference id loc); try done.
  rewrite Hst. by apply verifyCorrectLocation_lost.
Qed.

Lemma unknown_last_location_locks_out_witness :
  fst (handler
         (with_userState_fetch online
            (λ _, Returned {| user := Sample.veteran;
                              gameId_of := Sample.gameId;
                              lastLocation := Sample.gameId |}))
         (checkin Sample.veteran "1") []) =
  Returned (explained OutOfOrderVisit).
Proof.
  rewrite (unknown_last_location_locks_out
             (with_userState_fetch online
                (λ _, Returned {| user := Sample.veteran;
                                  gameId_of := Sample.gameId;
                                  lastLocation := Sample.gameId |}))
             (checkin Sample.veteran "1") Sample.veteran Sample.reference "1"
             {| user := Sample.veteran; gameId_of := Sample.gameId;
                lastLocation := Sample.gameId |}
             {| index := 1; key := Sample.K1 |} []).
  - reflexivity.
  - repeat split; vm_compute; reflexivity.
  - vm_compute; reflexivity.
  - vm_compute; reflexivity.
  - vm_compute; reflexivity.
Defined.

(** X6. For a given state of the player, [verifyCorrectLocation] lets
    locations of one index through at most: two accepted locations have the
    same index. *)
Theorem accepted_index_is_unique rt st loc1 loc2 :
  verifyCorrectLocation rt st loc1 = true →
  verifyCorrectLocation rt st loc2 = true →
  index loc1 = index loc2.
Proof.
  destruct st as [st|].
  - destruct (standing_at rt st) as [last|] eqn:Hlast.
    + intros H1 H2.
      apply (verifyCorrectLocation_next rt st last _ Hlast) in H1.
      apply (verifyCorrectLocation_next rt st last _ Hlast) in H2. lia.
    + intros H1. by rewrite (verifyCorrectLocation_lost rt st loc1) in H1.
  - intros H1 H2. apply verifyCorrectLocation_first in H1.
    apply verifyCorrectLocation_first in H2. lia.
Qed.

Lemma accepted_index_is_unique_witness :
  index {| index := 1; key := Sample.K1 |} =
  index {| index := 1; key := Sample.K3 |}.
Proof.
  apply (accepted_index_is_unique online None); reflexivity.
Defined.

(** X7. The hunt ends: once the player stands at a location whose index no
    registered location exceeds, [verifyCorrectLocation] refuses every
    registered location, and every valid request for one is answered with
    the out-of-order message. *)
Theorem hunt_ends_at_greatest_index rt st last :
  standing_at rt st = Some last →
  (∀ l, l ∈ locations rt → index l <= index last) →
  ∀ loc, loc ∈ locations rt →
    verifyCorrectLocation rt (Some st) loc = false ∧
    ∀ req account reference id tr,
      valid_post rt req account reference id →
      fetched rt account = Some st →
      locationAtIndex rt (Number_valueOf rt id) = Some loc →
      fst (handler rt req tr) = Returned (explained OutOfOrderVisit).
Proof.
  intros Hlast Hmax loc Hin.
  assert (verifyCorrectLocation rt (Some st) loc = false) as Hv.
  { destruct (verifyCorrectLocation rt (Some st) loc) eqn:Hv; [|done].
    apply (verifyCorrectLocation_next rt st last loc Hlast) in Hv.
    specialize (Hmax loc Hin). lia. }
  split; [done|].
  intros req account reference id tr Hvalid Hst Hloc.
  rewrite (handler_out_of_order rt req account reference id loc); try done.
  by rewrite Hst.
Qed.

Lemma hunt_ends_at_greatest_index_witness :
  verifyCorrectLocation online
    (Some {| user := Sample.veteran; gameId_of := Sample.gameId;
             lastLocation := Sample.K3 |})
    {| index := 1; key := Sample.K1 |} = false.
Proof.
  apply (hunt_ends_at_greatest_index online
           {| user := Sample.veteran; gameId_of := Sample.gameId;
              lastLocation := Sample.K3 |}
           {| index := 3; key := Sample.K3 |}).
  - vm_compute; reflexivity.
  - intros l Hl. simpl in Hl. unfold Sample.locations in Hl.
    rewrite !elem_of_cons, elem_of_nil in Hl.
    destruct Hl as [-> | [-> | [-> | []]]]; vm_compute; discriminate.
  - simpl. unfold Sample.locations. apply list_elem_of_here.
Defined.

(** X8. With distinct keys in the registry, a player whose state records
    the key of a registered location is let through at the locations of the
    next index and nowhere else. *)
Theorem after_a_visit_the_next_index_only rt st here loc :
  NoDup (map (λ l, toBase58 (key l)) (locations rt)) →
  here ∈ locations rt →
  lastLocation st = key here →
  verifyCorrectLocation rt (Some st) loc = true ↔
  index loc = index here + 1.
Proof.
  intros Hnodup Hin Hkey.
  apply verifyCorrectLocation_next. by apply standing_at_registered.
Qed.

Lemma after_a_visit_the_next_index_only_witness :
  verifyCorrectLocation online
    (Some {| user := Sample.veteran; gameId_of := Sample.gameId;
             lastLocation := Sample.K2 |})
    {| index := 3; key := Sample.K3 |} = true ↔
  index {| index := 3; key := Sample.K3 |} =
  index {| index := 2; key := Sample.K2 |} + 1.
Proof.
  apply (after_a_visit_the_next_index_only online
           {| user := Sample.veteran; gameId_of := Sample.gameId;
              lastLocation := Sample.K2 |}
           {| index := 2; key := Sample.K2 |}).
  - simpl. repeat (apply NoDup_cons; split;
                   [rewrite ?elem_of_cons, elem_of_nil;
                    intros H; repeat destruct H as [H|H];
                    try discriminate H; done|]).
    apply NoDup_nil_2.
  - simpl. unfold Sample.locations. apply list_elem_of_further, list_elem_of_here.
  - reflexivity.
Defined.

(** X9. The transaction a POST is answered with was given to [partialSign]
    with the blockhash and the block height just fetched, no signature yet,
    and two instructions for a player without state, one otherwise. *)
Theorem answered_transaction_is_fresh rt req tr resp t :
  method req = Some "POST" →
  fst (handler rt req tr) = Returned resp →
  transaction_field resp = Some t → t ≠ "" →
  ∃ account latest tx signed bytes,
    PublicKey_new rt (body_prop req "account") = Returned account ∧
    getLatestBlockhash rt = Returned latest ∧
    recentBlockhash tx = Some (fst latest) ∧
    lastValidBlockHeight tx = Some (snd latest) ∧
    signatures tx = [] ∧
    length (instructions tx)
      = match fetched rt account with Some _ => 1%nat | None => 2%nat end ∧
    partialSign rt tx (eventOrganizer rt) = Returned signed ∧
    serialize rt serializeConfig signed = Returned bytes ∧
    t = Base64.encode bytes.
Proof.
  intros Hm Hresp Hfield Hne.
  destruct (post_transaction_inv rt req tr resp t)
    as (account & reference & id & loc & Hvalid & _ & _ & Ht & _); try done.
  destruct Hvalid as (_ & _ & _ & _ & Hka & _).
  unfold transaction_for in Ht.
  destruct (fetched rt account) as [st|] eqn:Hst.
  - destruct Ht as (checkIx & _ & latest & signed & bytes
                    & Hl & Hs & Hb & ->).
    match type of Hs with
    | partialSign _ ?tx _ = _ => exists account, latest, tx, signed, bytes
    end.
    rewrite Hst. repeat split; done.
  - destruct Ht as (initIx & checkIx & _ & _ & latest & signed & bytes
                    & Hl & Hs & Hb & ->).
    match type of Hs with
    | partialSign _ ?tx _ = _ => exists account, latest, tx, signed, bytes
    end.
    rewrite Hst. repeat split; done.
Qed.

Lemma answered_transaction_is_fresh_witness :
  ∃ account latest tx signed bytes,
    PublicKey_new online
      (body_prop (checkin Sample.veteran "2") "account") = Returned account ∧
    getLatestBlockhash online = Returned latest ∧
    recentBlockhash tx = Some (fst latest) ∧
    lastValidBlockHeight tx = Some (snd latest) ∧
    signatures tx = [] ∧
    length (instructions tx)
      = match fetched online account with
        | Some _ => 1%nat
        | None => 2%nat
        end ∧
    partialSign online tx (eventOrganizer online) = Returned signed ∧
    serialize online serializeConfig signed = Returned bytes ∧
    "U0k=" = Base64.encode bytes.
Proof.
  apply (answered_transaction_is_fresh online (checkin Sample.veteran "2") []
           (found (checkin Sample.veteran "2") "U0k=") "U0k=").
  - reflexivity.
  - vm_compute; reflexivity.
  - vm_compute; reflexivity.
  - discriminate.
Defined.

(** X10. Start-up yields the organizer's key only when the variable holds
    JSON for a truthy value whose bytes make a key pair.  An unset variable
    is parsed as the empty text, so start-up fails with the error of the
    parser and not with the not-found error; that error is thrown when the
    variable holds JSON for [null], [false], [0] or the empty string. *)
Theorem organizer_key_needs_truthy_json lib env :
  (∀ k, getEventOrganizer lib env = Returned k →
        ∃ v, JSON_parse lib (default "" env) = Returned v ∧
             truthy v = true ∧
             Keypair_fromSecretKey lib (Uint8Array_from lib v) = Returned k) ∧
  (∀ e, env = None → JSON_parse lib "" = Threw e →
        getEventOrganizer lib env = Threw e) ∧
  (∀ text v, env = Some text → JSON_parse lib text = Returned v →
             v ∈ [JsNull; JsBool false; JsNumber 0; JsString ""] →
             getEventOrganizer lib env = Threw OrganizerNotFound).
Proof.
  unfold getEventOrganizer. split; [|split].
  - intros k H. change (match env with Some text => text | None => "" end)
      with (default "" env) in H.
    destruct (JSON_parse lib (default "" env)) as [v|]; [|discriminate].
    exists v. destruct (truthy v); [done|discriminate].
  - intros e -> H. by rewrite H.
  - intros text v -> H Hv. rewrite H.
    rewrite !elem_of_cons, elem_of_nil in Hv.
    by destruct Hv as [-> | [-> | [-> | [-> | []]]]].
Qed.

Lemma organizer_key_needs_truthy_json_witness :
  getEventOrganizer sample_startup None =
  Threw (ThrownValue (JsString "Unexpected end of JSON input")).
Proof.
  destruct (organizer_key_needs_truthy_json sample_startup None)
    as (_ & H & _).
  by apply H.
Defined.

(** X11. The menu has one link for the home page and one for each location
    of the registry; the links are pairwise distinct exactly when the
    indices of the registry are, and the page of every location is among
    them. *)
Theorem menu_links_each_location_once locs :
  length (links (Navbar locs)) = S (length locs) ∧
  (NoDup (links (Navbar locs)) ↔ NoDup (map index locs)) ∧
  (∀ l, l ∈ locs →
        "/location/" +:+ pretty (index l) ∈ links (Navbar locs)).
Proof.
  rewrite links_Navbar. split; [|split].
  - simpl. by rewrite !length_map.
  - rewrite NoDup_cons.
    rewrite (NoDup_fmap (λ z : Z, "/location/" +:+ pretty z)).
    split; [by intros (_ & ?)|]. intros H. split; [|done].
    intros Hin. apply list_elem_of_fmap in Hin as (z & Hz & _).
    discriminate Hz.
  - intros l Hl. apply list_elem_of_further.
    apply list_elem_of_fmap. exists (index l). split; [done|].
    apply list_elem_of_fmap. by exists l.
Qed.

Lemma menu_links_each_location_once_witness :
  "/location/" +:+ pretty (index {| index := 2; key := Sample.K2 |})
    ∈ links (Navbar Sample.locations).
Proof.
  destruct (menu_links_each_location_once Sample.locations) as (_ & _ & H).
  apply H. apply list_elem_of_further, list_elem_of_here.
Defined.

(** X12. The base64 text of [n] bytes has four characters for every three
    bytes, rounded up, and each character is a digit of the alphabet or the
    padding sign. *)
Theorem base64_text_length_and_alphabet bs :
  String.length (Base64.encode bs) = (4 * ((length bs + 2) / 3))%nat ∧
  Forall (λ ch, (digit_value ch < 64)%N ∨ ch = "="%char)
         (list_ascii_of_string (Base64.encode bs)).
Proof. split; [apply encode_length | apply encode_alphabet]. Qed.

(** X13. The base64 text determines the bytes: two byte strings with the
    same text are equal, so the wallet reads back the transaction that was
    serialized. *)
Theorem base64_text_determines_the_bytes bs bs' :
  Base64.encode bs = Base64.encode bs' → bs = bs'.
Proof.
  revert bs bs'. fix IH 1.
  intros [|a [|b [|c rest]]] [|a' [|b' [|c' rest']]];
    rewrite ?encode_1, ?encode_2, ?encode_3; cbv zeta; intros H;
    try done; try (injection H as; try pad_clash).
  all: try discriminate.
  - (* one byte *)
    apply digit_inj in H, H0.
    destruct (groups_1 a) as (g1 & g2), (groups_1 a') as (g1' & g2').
    rewrite g1, g1' in H. rewrite g2, g2' in H0.
    f_equal. by apply first_byte.
  - (* two bytes *)
    apply digit_inj in H, H0, H1.
    destruct (groups_2 a b) as (g1 & g2 & g3).
    destruct (groups_2 a' b') as (g1' & g2' & g3').
    rewrite g1, g1' in H. rewrite g2, g2' in H0. rewrite g3, g3' in H1.
    apply split_second in H0 as (Ha & Hb).
    f_equal; [by apply first_byte|]. f_equal. by apply second_byte.
  - (* three bytes and more *)
    apply digit_inj in H, H0, H1, H2.
    destruct (groups a b c) as (g1 & g2 & g3 & g4).
    destruct (groups a' b' c') as (g1' & g2' & g3' & g4').
    rewrite g1, g1' in H. rewrite g2, g2' in H0. rewrite g3, g3' in H1.
    rewrite g4, g4' in H2.
    apply split_second in H0 as (Ha & Hb).
    apply split_third in H1 as (Hb' & Hc).
    apply IH in H3.
    f_equal; [by apply first_byte|]. f_equal; [by apply second_byte|].
    f_equal; [by apply third_byte | done].
Qed.

Lemma base64_text_determines_the_bytes_witness :
  [x66; x6f] = [x66; x6f].
Proof.
  apply (base64_text_determines_the_bytes [x66; x6f] [x66; x6f]).
  reflexivity.
Defined.

(** X14. A POST whose body can be destructured (any value but [undefined]
    and [null]) and that lacks [account], [reference] or [id] is answered
    with status 400 and the missing-parameter body, and the trace is
    unchanged: no outside call was made. *)
Theorem missing_parameter_is_400_when_body_is_readable rt req tr :
  method req = Some "POST" → body_readable req →
  body_prop req "account" = JsUndefined ∨ query req !! "reference" = None
  ∨ query req !! "id" = None →
  handler rt req tr =
  (Returned {| status := 400;
               json := JsObject
                 [("error", JsString "Missing required parameter(s)")] |},
   tr).
Proof.
  intros Hm Hbody Habsent. rewrite handler_post by done.
  apply post_missing; [done|]. unfold parameters_present.
  intros (Ha & Hr & Hi).
  destruct Habsent as [H | [H | H]]; rewrite H in *; discriminate.
Qed.

Lemma missing_parameter_is_400_when_body_is_readable_witness :
  handler online (request "POST" (Some Sample.newcomer) None (Some "1")) [] =
  (Returned MissingParameters, []).
Proof.
  apply (missing_parameter_is_400_when_body_is_readable online
           (request "POST" (Some Sample.newcomer) None (Some "1")) []).
  - reflexivity.
  - split; discriminate.
  - right. left. vm_compute. reflexivity.
Defined.
